(** * Two-component reaction-diffusion integrator (tf_reaction_diffusion_2c)

  A shallow embedding of the notebook's integrator: the NumPy
  initialisation of the two concentration fields, the periodic padding
  [wrap_pad], the TensorFlow graph ([kernel], [diff_a], [react_a],
  [next_a], ...), one evaluation of the graph ([sess_run]) and the
  driver loop that samples the trajectory into [evolution].

  The arithmetic of the graph is an interface ([Arith]) with two
  instances: binary32 tensors fed from binary64 Python floats, summed
  over a patch in the order of TensorFlow's CPU kernel (what the notebook
  computes with), and exact rationals (the arithmetic in which the scheme
  is usually reasoned about).  The interpreter's global variables are a
  store ([Kernel]) that the cells of the notebook transform. *)

From Stdlib Require Import ZArith Lia QArith Qcanon Ring.
From Stdlib Require Import Floats.SpecFloat.
From stdpp Require Import base option list relations.

Set Default Proof Using "Type".

(** ** Python and NumPy/TensorFlow slicing (stride 1) *)

Module Py.

(** Normalisation of a slice bound against a sequence of length [len]:
    a negative bound counts from the end, and the result is clamped to
    [0 .. len]. *)
Definition norm_index (len i : Z) : Z :=
  if (i <? 0)%Z then Z.max (i + len) 0 else Z.min i len.

Definition bounds (len : Z) (start stop : option Z) : nat * nat :=
  let lo := from_option (norm_index len) 0%Z start in
  let hi := from_option (norm_index len) len stop in
  (Z.to_nat lo, Z.to_nat (hi - lo)).

(** [l[start:stop]] *)
Definition slice {A} (start stop : option Z) (l : list A) : list A :=
  let '(lo, n) := bounds (Z.of_nat (length l)) start stop in
  take n (drop lo l).

(** [l[start:stop] = ...], every selected element rewritten by [g]
    (a scalar on the right-hand side is broadcast: [g] is constant). *)
Definition slice_update {A} (start stop : option Z) (g : A → A)
    (l : list A) : list A :=
  let '(lo, n) := bounds (Z.of_nat (length l)) start stop in
  take lo l ++ (g <$> take n (drop lo l)) ++ drop (lo + n) l.

(** Whether index [i] is selected by [start:stop]. *)
Definition selects (len : Z) (start stop : option Z) (i : nat) : bool :=
  let '(lo, n) := bounds len start stop in (lo <=? i) && (i <? lo + n).

(** [x % y] on Python integers: the result has the sign of [y];
    a zero divisor raises [ZeroDivisionError]. *)
Definition mod_ (x y : Z) : option Z :=
  if (y =? 0)%Z then None else Some (x mod y)%Z.

(** [range(n)] *)
Definition range (n : Z) : list Z := seqZ 0 n.

End Py.

Arguments Py.selects : simpl never.

(** ** Tensors *)

Abbreviation tensor2 F := (list (list F)).
Abbreviation tensor4 F := (list (list (list (list F)))).

Section Tensor.
Context {F : Type}.

(** Shape predicates, as booleans. *)
Definition has_shape2 (n m : nat) (t : tensor2 F) : bool :=
  (length t =? n) && forallb (λ row, length row =? m) t.

Definition has_shape4 (d0 d1 d2 d3 : nat) (t : tensor4 F) : bool :=
  (length t =? d0) &&
  forallb (λ img, (length img =? d1) &&
    forallb (λ row, (length row =? d2) &&
      forallb (λ px : list F, length px =? d3) row) img) t.

Definition lookup2 (t : tensor2 F) (i j : nat) : option F :=
  row ← t !! i; row !! j.

Definition lookup4 (t : tensor4 F) (b i j c : nat) : option F :=
  img ← t !! b; row ← img !! i; px ← row !! j; px !! c.

(** Row-major regrouping of a flat buffer into [rows] rows of [n]. *)
Fixpoint chunk_rows {A} (rows n : nat) (l : list A) : list (list A) :=
  match rows with
  | O => []
  | S r => take n l :: chunk_rows r n (drop n l)
  end.

Definition flatten4 (t : tensor4 F) : list F := concat (concat (concat t)).

(** [tf.reshape(t, [n, m])] and [tf.reshape(t, [d0, d1, d2, d3])] on the
    row-major buffer of [t]; the element counts must agree. *)
Definition reshape2 (n m : nat) (flat : list F) : option (tensor2 F) :=
  if length flat =? n * m then Some (chunk_rows n m flat) else None.

Definition reshape4 (d0 d1 d2 d3 : nat) (flat : list F) : option (tensor4 F) :=
  if length flat =? d0 * d1 * d2 * d3 then
    Some (chunk_rows d0 d1
           (chunk_rows (d0 * d1) d2
             (chunk_rows (d0 * d1 * d2) d3 flat)))
  else None.

(** Slices [t[:, a:b, :, :]] and [t[:, :, a:b, :]]. *)
Definition slice_axis1 (start stop : option Z) (t : tensor4 F) : tensor4 F :=
  Py.slice start stop <$> t.

Definition slice_axis2 (start stop : option Z) (t : tensor4 F) : tensor4 F :=
  fmap (M := list) (Py.slice start stop) <$> t.

(** [tf.concat([x, y, z], 1)] and [tf.concat([x, y, z], 2)], for tensors
    that agree on the other axes. *)
Definition concat_axis1 (x y z : tensor4 F) : tensor4 F :=
  zip_with (λ ix yz, ix ++ yz) x (zip_with (λ iy iz, iy ++ iz) y z).

Definition concat_axis2 (x y z : tensor4 F) : tensor4 F :=
  zip_with (zip_with (λ rx ryz, rx ++ ryz)) x
    (zip_with (zip_with (λ ry rz, ry ++ rz)) y z).

(** Periodic padding of the two spatial axes by [size] cells:
<<
  def wrap_pad(tensor, size):
      M1 = tf.concat([tensor[:,:,-size:,:], tensor, tensor[:,:,0:size,:]], 2)
      M1 = tf.concat([M1[:,-size:,:,:], M1, M1[:,0:size,:,:]], 1)
      return M1
>> *)
Definition wrap_pad (tensor : tensor4 F) (size : Z) : tensor4 F :=
  let M1 := concat_axis2 (slice_axis2 (Some (- size)%Z) None tensor)
                         tensor
                         (slice_axis2 (Some 0%Z) (Some size) tensor) in
  let M1 := concat_axis1 (slice_axis1 (Some (- size)%Z) None M1)
                         M1
                         (slice_axis1 (Some 0%Z) (Some size) M1) in
  M1.

(** Elementwise lifting of scalar operations to rank-4 tensors. *)
Definition tmap (g : F → F) (t : tensor4 F) : tensor4 F :=
  fmap (M := list) (fmap (M := list) (fmap (M := list) g)) <$> t.

Definition tzip (g : F → F → F) (x y : tensor4 F) : tensor4 F :=
  zip_with (zip_with (zip_with (zip_with g))) x y.

End Tensor.

(** ** The order of the sum over a patch

    [tf.nn.conv2d] does not say in which order the products of one patch
    are added; the kernel that runs decides.  An order is a tree over the
    products, numbered in row-major order of the filter; [from_zero] is an
    accumulator that starts at zero. *)
Inductive reduction :=
| from_zero
| product (i : nat)
| sum_of (l r : reduction).

(** One accumulator, the products added one after the other. *)
Definition sequential (order : list nat) : reduction :=
  foldl (λ acc i, sum_of acc (product i)) from_zero order.

Definition row_major : reduction := sequential (seq 0 9).

(** The centre of a 3x3 filter first, then the edges, then the corners. *)
Definition centre_first : reduction := sequential [4; 1; 3; 5; 7; 0; 2; 6; 8].

(** The order of TensorFlow's CPU kernel on the nine products of a 3x3
    filter with one channel: the first eight are added in pairs, the pairs
    in pairs, the two halves together, and the ninth product last. *)
Definition pairwise : reduction :=
  sum_of
    (sum_of
       (sum_of (sum_of (product 0) (product 1))
               (sum_of (product 2) (product 3)))
       (sum_of (sum_of (product 4) (product 5))
               (sum_of (product 6) (product 7))))
    (product 8).

(** ** The arithmetic of the graph

    The notebook's parameters are Python floats ([pyfloat]); the graph
    computes on [tf.float32] tensors ([f32]).  A Python scalar that meets a
    tensor is converted first ([cast]); products and sums of two Python
    scalars ([DA * TIME_STEP], [k + f]) are taken before the conversion.
    [py_lit] reads a decimal literal of the source.  [conv_order] is the
    order in which the convolution adds the products of a patch. *)

Class Arith := {
  pyfloat : Type;
  f32 : Type;
  py_lit : Q → pyfloat;
  py_add : pyfloat → pyfloat → pyfloat;
  py_mul : pyfloat → pyfloat → pyfloat;
  cast : pyfloat → f32;
  f_add : f32 → f32 → f32;
  f_sub : f32 → f32 → f32;
  f_mul : f32 → f32 → f32;
  f_neg : f32 → f32;
  conv_order : reduction
}.

Section Model.
Context {Ar : Arith}.

(** The global parameters of the notebook (cell 4). *)
Record Params := {
  N_POINTS : Z;
  SEED_START : Z;
  SEED_SIZE : Z;
  N_TIMES : Z;
  TIME_STEP : pyfloat;
  N_STEPS : Z;
  DA : pyfloat;
  DB : pyfloat;
  f : pyfloat;
  k : pyfloat
}.

Definition f_zero : f32 := cast (py_lit 0).
Definition f_one : f32 := cast (py_lit 1).

(** ** Starting conditions (cell 5)

    [np.ones((n, m))] and [np.zeros((n, m))] raise [ValueError] on a
    negative dimension.  The arrays are NumPy float64; they are stored here
    as the float32 values the placeholders receive (the conversion of 1.0
    and 0.0 is exact). *)
Definition np_full (n m : Z) (v : f32) : option (tensor2 f32) :=
  if ((n <? 0) || (m <? 0))%Z then None
  else Some (replicate (Z.to_nat n) (replicate (Z.to_nat m) v)).

(** [b[SEED_START:SEED_START+SEED_SIZE, SEED_START:SEED_START+SEED_SIZE] = 1.0] *)
Definition seed (p : Params) (b : tensor2 f32) : tensor2 f32 :=
  let start := Some (SEED_START p) in
  let stop := Some (SEED_START p + SEED_SIZE p)%Z in
  Py.slice_update start stop (Py.slice_update start stop (λ _, f_one)) b.

Definition initialize (p : Params) : option (tensor2 f32 * tensor2 f32) :=
  a ← np_full (N_POINTS p) (N_POINTS p) f_one;
  b ← np_full (N_POINTS p) (N_POINTS p) f_zero;
  Some (a, seed p b).

(** ** The graph (cell 7) *)

(** The entry [(i, j, q)] of one image of a batch. *)
Definition at3 (img : list (list (list f32))) (i j q : nat) : f32 :=
  default f_zero (row ← img !! i; px ← row !! j; px !! q).

(** The sum of [products] in the order [o]. *)
Fixpoint reduce (o : reduction) (products : list f32) : f32 :=
  match o with
  | from_zero => f_zero
  | product i => default f_zero (products !! i)
  | sum_of l r => f_add (reduce l products) (reduce r products)
  end.

(** The products of one patch, in row-major order of the filter. *)
Definition patch_products (img : list (list (list f32)))
    (filter : tensor4 f32) (kh kw cin : nat) (i j c : nat) : list f32 :=
  concat ((λ di,
    concat ((λ dj,
      (λ q, f_mul (at3 img (i + di) (j + dj) q)
                  (default f_zero (lookup4 filter di dj q c)))
      <$> seq 0 cin)
    <$> seq 0 kw))
  <$> seq 0 kh).

(** The sum over one patch, in the order of the kernel that runs. *)
Definition dot_patch (img : list (list (list f32))) (filter : tensor4 f32)
    (kh kw cin : nat) (i j c : nat) : f32 :=
  reduce conv_order (patch_products img filter kh kw cin i j c).

(** [tf.nn.conv2d(input, filter, strides=[1,1,1,1], padding='VALID')] on
    NHWC input and HWIO filter:
    [output[b,i,j,k] = sum_{di,dj,q} input[b,i+di,j+dj,q] * filter[di,dj,q,k]];
    an input smaller than the filter is refused. *)
Definition conv2d (input filter : tensor4 f32) : option (tensor4 f32) :=
  let h := length (default [] (head input)) in
  let w := length (default [] (head (default [] (head input)))) in
  let kh := length filter in
  let kw := length (default [] (head filter)) in
  let cin := length (default [] (head (default [] (head filter)))) in
  let cout :=
    length (default [] (head (default [] (head (default [] (head filter)))))) in
  if (h <? kh) || (w <? kw) then None
  else Some ((λ img,
         (λ i, (λ j, (λ c, dot_patch img filter kh kw cin i j c)
                       <$> seq 0 cout)
                 <$> seq 0 (w + 1 - kw))
           <$> seq 0 (h + 1 - kh))
         <$> input).

Definition kernel : option (tensor4 f32) :=
  let w1 := cast (py_lit 0.05) in
  let w2 := cast (py_lit 0.2) in
  let w0 := cast (py_lit (-1)) in
  reshape4 3 3 1 1 (concat [[w1; w2; w1]; [w2; w0; w2]; [w1; w2; w1]]).

Definition kernel_a (p : Params) : option (tensor4 f32) :=
  tmap (f_mul (cast (py_mul (DA p) (TIME_STEP p)))) <$> kernel.

Definition kernel_b (p : Params) : option (tensor4 f32) :=
  tmap (f_mul (cast (py_mul (DB p) (TIME_STEP p)))) <$> kernel.

(** [tf.placeholder(tf.float32, shape=[N_POINTS, N_POINTS])]: a fed value
    of another shape is refused. *)
Definition placeholder (p : Params) (v : tensor2 f32) : option (tensor2 f32) :=
  let n := Z.to_nat (N_POINTS p) in
  if (0 <=? N_POINTS p)%Z && has_shape2 n n v then Some v else None.

Definition input_a (p : Params) (current_a : tensor2 f32) : option (tensor4 f32) :=
  let n := Z.to_nat (N_POINTS p) in reshape4 1 n n 1 (concat current_a).

Definition input_b (p : Params) (current_b : tensor2 f32) : option (tensor4 f32) :=
  let n := Z.to_nat (N_POINTS p) in reshape4 1 n n 1 (concat current_b).

Definition diff_a (p : Params) (input_a : tensor4 f32) : option (tensor4 f32) :=
  ka ← kernel_a p; conv2d (wrap_pad input_a 1) ka.

Definition diff_b (p : Params) (input_b : tensor4 f32) : option (tensor4 f32) :=
  kb ← kernel_b p; conv2d (wrap_pad input_b 1) kb.

(** [TIME_STEP * (-input_a*input_b*input_b + f*(1.0 - input_a))] *)
Definition react_a (p : Params) (input_a input_b : tensor4 f32) : tensor4 f32 :=
  tmap (f_mul (cast (TIME_STEP p)))
    (tzip f_add
       (tzip f_mul (tzip f_mul (tmap f_neg input_a) input_b) input_b)
       (tmap (f_mul (cast (f p))) (tmap (f_sub f_one) input_a))).

(** [TIME_STEP * (input_a*input_b*input_b - (k+f)*input_b)] *)
Definition react_b (p : Params) (input_a input_b : tensor4 f32) : tensor4 f32 :=
  tmap (f_mul (cast (TIME_STEP p)))
    (tzip f_sub
       (tzip f_mul (tzip f_mul input_a input_b) input_b)
       (tmap (f_mul (cast (py_add (k p) (f p)))) input_b)).

(** [next_a = tf.reshape(input_a + diff_a + react_a, [N_POINTS, N_POINTS])] *)
Definition next_a (p : Params) (input_a input_b : tensor4 f32) : option (tensor2 f32) :=
  let n := Z.to_nat (N_POINTS p) in
  d ← diff_a p input_a;
  reshape2 n n
    (flatten4 (tzip f_add (tzip f_add input_a d) (react_a p input_a input_b))).

Definition next_b (p : Params) (input_a input_b : tensor4 f32) : option (tensor2 f32) :=
  let n := Z.to_nat (N_POINTS p) in
  d ← diff_b p input_b;
  reshape2 n n
    (flatten4 (tzip f_add (tzip f_add input_b d) (react_b p input_a input_b))).

(** [sess.run([next_a, next_b], feed_dict={current_a: a, current_b: b})] *)
Definition sess_run (p : Params) (a b : tensor2 f32)
    : option (tensor2 f32 * tensor2 f32) :=
  current_a ← placeholder p a;
  current_b ← placeholder p b;
  ia ← input_a p current_a;
  ib ← input_b p current_b;
  new_a ← next_a p ia ib;
  new_b ← next_b p ia ib;
  Some (new_a, new_b).

(** ** The driver loop (cell 7)
<<
    evolution = [[a,b]]
    for i in tqdm(range(N_TIMES)):
        new_a, new_b = sess.run([next_a, next_b], feed_dict=feed_dict)
        if (i+1)%N_STEPS==0:
            evolution.append([new_a, new_b])
        a = new_a
        b = new_b
>> *)
Record Loop := {
  cur_a : tensor2 f32;
  cur_b : tensor2 f32;
  evolution : list (tensor2 f32 * tensor2 f32)
}.

Definition loop_body (p : Params) (st : Loop) (i : Z) : option Loop :=
  '(new_a, new_b) ← sess_run p (cur_a st) (cur_b st);
  r ← Py.mod_ (i + 1) (N_STEPS p);
  Some {| cur_a := new_a; cur_b := new_b;
          evolution := if (r =? 0)%Z then evolution st ++ [(new_a, new_b)]
                       else evolution st |}.

Fixpoint for_each {S A} (body : S → A → option S) (l : list A) (st : S)
    : option S :=
  match l with
  | [] => Some st
  | x :: l' => st' ← body st x; for_each body l' st'
  end.

(** Construction of the graph: shape inference refuses the VALID
    convolution when its output size would be negative.  The padded side
    is the sum of the three concatenated slices. *)
Definition wrap_dim (n size : Z) : Z :=
  Z.of_nat (Py.bounds n (Some (- size)%Z) None).2 + n
  + Z.of_nat (Py.bounds n (Some 0%Z) (Some size)).2.

Definition build_graph (p : Params) : option unit :=
  if (N_POINTS p <? 0)%Z then None
  else if (wrap_dim (N_POINTS p) 1 - 3 + 1 <? 0)%Z then None
  else Some ().

(** The loop started from a given state, and the whole notebook. *)
Definition run_from (p : Params) (s0 : tensor2 f32 * tensor2 f32)
    : option (list (tensor2 f32 * tensor2 f32)) :=
  evolution <$>
    for_each (loop_body p) (Py.range (N_TIMES p))
      {| cur_a := s0.1; cur_b := s0.2; evolution := [s0] |}.

Definition run (p : Params) : option (list (tensor2 f32 * tensor2 f32)) :=
  s0 ← initialize p;
  _ ← build_graph p;
  run_from p s0.

(** The state after [n] evaluations of the graph. *)
Fixpoint steps (p : Params) (n : nat) (s : tensor2 f32 * tensor2 f32)
    : option (tensor2 f32 * tensor2 f32) :=
  match n with
  | O => Some s
  | S n' => s' ← sess_run p s.1 s.2; steps p n' s'
  end.

Definition state_after (p : Params) (s0 : tensor2 f32 * tensor2 f32) (m : nat)
    : tensor2 f32 * tensor2 f32 :=
  default s0 (steps p m s0).

(** Both fields of a state have the shape of the placeholders. *)
Definition well_shaped (p : Params) (s : tensor2 f32 * tensor2 f32) : Prop :=
  has_shape2 (Z.to_nat (N_POINTS p)) (Z.to_nat (N_POINTS p)) s.1 = true
  ∧ has_shape2 (Z.to_nat (N_POINTS p)) (Z.to_nat (N_POINTS p)) s.2 = true.

(** The entries expected after [m] iterations: one for every multiple of
    [N_STEPS] up to [m], tagged by that multiple. *)
Definition samples (p : Params) (s : tensor2 f32 * tensor2 f32) (m : nat)
    : list (Z * (tensor2 f32 * tensor2 f32)) :=
  let ns := Z.to_nat (N_STEPS p) in
  (λ q, (Z.of_nat (q * ns), state_after p s (q * ns))) <$> seq 0 (S (m / ns)).

(** The same loop with every retained entry tagged by the 1-based number
    of the iteration that appended it (0 for the entry put before the
    loop); erasing the tags gives [run_from]. *)
Record TracedLoop := {
  t_a : tensor2 f32;
  t_b : tensor2 f32;
  t_evolution : list (Z * (tensor2 f32 * tensor2 f32))
}.

Definition traced_body (p : Params) (st : TracedLoop) (i : Z) : option TracedLoop :=
  '(new_a, new_b) ← sess_run p (t_a st) (t_b st);
  r ← Py.mod_ (i + 1) (N_STEPS p);
  Some {| t_a := new_a; t_b := new_b;
          t_evolution :=
            if (r =? 0)%Z then t_evolution st ++ [((i + 1)%Z, (new_a, new_b))]
            else t_evolution st |}.

Definition run_traced (p : Params) (s0 : tensor2 f32 * tensor2 f32)
    : option (list (Z * (tensor2 f32 * tensor2 f32))) :=
  t_evolution <$>
    for_each (traced_body p) (Py.range (N_TIMES p))
      {| t_a := s0.1; t_b := s0.2; t_evolution := [(0%Z, s0)] |}.

Definition erase (t : TracedLoop) : Loop :=
  {| cur_a := t_a t; cur_b := t_b t; evolution := (t_evolution t).*2 |}.

(** ** The interpreter's variables

    The cells of a notebook share the global variables of one Python
    process, and a variable keeps the value that whatever ran before left
    in it.  [Kernel] holds the variables that cells 4, 5 and 7 assign;
    [None] is a name that is not bound (reading it raises [NameError]). *)
Record Kernel := {
  g_params : option Params;
  g_a : option (tensor2 f32);
  g_b : option (tensor2 f32);
  g_evolution : option (list (tensor2 f32 * tensor2 f32));
  g_i : option Z;
  g_new_a : option (tensor2 f32);
  g_new_b : option (tensor2 f32)
}.

(** The interpreter just started. *)
Definition fresh : Kernel :=
  {| g_params := None; g_a := None; g_b := None; g_evolution := None;
     g_i := None; g_new_a := None; g_new_b := None |}.

(** Cell 4 assigns the ten parameters. *)
Definition cell_parameters (p : Params) (g : Kernel) : Kernel :=
  {| g_params := Some p; g_a := g_a g; g_b := g_b g;
     g_evolution := g_evolution g; g_i := g_i g;
     g_new_a := g_new_a g; g_new_b := g_new_b g |}.

(** Cell 5 reads the parameters and assigns [a], [b] and [evolution]. *)
Definition cell_initialize (g : Kernel) : option Kernel :=
  p ← g_params g;
  '(a, b) ← initialize p;
  Some {| g_params := g_params g; g_a := Some a; g_b := Some b;
          g_evolution := Some [(a, b)]; g_i := g_i g;
          g_new_a := g_new_a g; g_new_b := g_new_b g |}.

(** One iteration of the loop of cell 7: it reads [a] and [b], assigns
    [i], [new_a], [new_b], [a] and [b], and appends to the list that
    [evolution] names when the iteration is sampled. *)
Definition cell_iteration (p : Params) (g : Kernel) (i : Z) : option Kernel :=
  a ← g_a g;
  b ← g_b g;
  '(new_a, new_b) ← sess_run p a b;
  r ← Py.mod_ (i + 1) (N_STEPS p);
  evolution' ← (if (r =? 0)%Z
                then ev ← g_evolution g; Some (Some (ev ++ [(new_a, new_b)]))
                else Some (g_evolution g));
  Some {| g_params := g_params g; g_a := Some new_a; g_b := Some new_b;
          g_evolution := evolution'; g_i := Some i;
          g_new_a := Some new_a; g_new_b := Some new_b |}.

(** Cell 7: the graph is built from the parameters, then the loop runs. *)
Definition cell_simulate (g : Kernel) : option Kernel :=
  p ← g_params g;
  _ ← build_graph p;
  for_each (cell_iteration p) (Py.range (N_TIMES p)) g.

(** Cells 4, 5 and 7 in the order of the notebook. *)
Definition notebook (p : Params) (g : Kernel) : option Kernel :=
  g' ← cell_initialize (cell_parameters p g); cell_simulate g'.



End Model.

(** ** The arithmetic of the notebook: binary64 scalars, binary32 tensors

    IEEE-754 round-to-nearest-even operations of the Standard Library's
    [SpecFloat], at precision 53 (Python floats) and 24 ([tf.float32]). *)

Module B32.

(** A decimal literal [n/d] as the nearest binary64: the correctly rounded
    quotient of the two integers (both below [2^53] for every literal of
    the notebook, so that they are exact). *)
Definition lit (q : Q) : spec_float :=
  SFdiv 53 1024 (binary_normalize 53 1024 (Qnum q) 0 false)
                (binary_normalize 53 1024 (Zpos (Qden q)) 0 false).

(** Conversion of a binary64 to the nearest binary32. *)
Definition to_f32 (x : spec_float) : spec_float :=
  match x with
  | S754_finite s m e => binary_round 24 128 s m e
  | _ => x
  end.

(** TensorFlow's CPU kernels run with the processor's flush-to-zero and
    denormals-are-zero modes on: an operand below the smallest normal
    binary32 number [2^-126] counts as zero, and a result below it is
    replaced by zero, with its sign. *)
Definition subnormal (x : spec_float) : bool :=
  match x with
  | S754_finite _ m e => (Zdigits2 (Zpos m) + e <=? -126)%Z
  | _ => false
  end.

Definition flush (x : spec_float) : spec_float :=
  match x with
  | S754_finite s _ _ => if subnormal x then S754_zero s else x
  | _ => x
  end.

Definition flushed (op : spec_float → spec_float → spec_float)
    (x y : spec_float) : spec_float :=
  flush (op (flush x) (flush y)).

(** Binary32 tensors whose convolution sums in the order [o]. *)
Definition with_order (o : reduction) : Arith := {|
  pyfloat := spec_float;
  f32 := spec_float;
  py_lit := lit;
  py_add := SFadd 53 1024;
  py_mul := SFmul 53 1024;
  cast := to_f32;
  f_add := flushed (SFadd 24 128);
  f_sub := flushed (SFsub 24 128);
  f_mul := flushed (SFmul 24 128);
  f_neg := SFopp;
  conv_order := o
|}.

#[export] Instance arith : Arith := with_order pairwise.

(** The parameters of cell 4. *)
Definition default_params : Params := {|
  N_POINTS := 400;
  SEED_START := 100;
  SEED_SIZE := 5;
  N_TIMES := 20000;
  TIME_STEP := lit 1.0;
  N_STEPS := 10;
  DA := lit 1.0;
  DB := lit 0.5;
  f := lit 0.055;
  k := lit 0.062
|}.

(** A small run: a 4 x 4 grid seeded on its 2 x 2 centre, four
    iterations sampled every second one. *)
Definition tiny_params : Params := {|
  N_POINTS := 4;
  SEED_START := 1;
  SEED_SIZE := 2;
  N_TIMES := 4;
  TIME_STEP := lit 1.0;
  N_STEPS := 2;
  DA := lit 1.0;
  DB := lit 0.5;
  f := lit 0.055;
  k := lit 0.062
|}.

Definition one : f32 := to_f32 (lit 1.0).
Definition zero : f32 := to_f32 (lit 0.0).

Definition tiny_a : tensor2 f32 :=
  [[one; one; one; one]; [one; one; one; one];
   [one; one; one; one]; [one; one; one; one]].

Definition tiny_b : tensor2 f32 :=
  [[zero; zero; zero; zero]; [zero; one; one; zero];
   [zero; one; one; zero]; [zero; zero; zero; zero]].

(** The small run with the convolution summing in another order. *)
Definition tiny_params_in (o : reduction) : Params (Ar := with_order o) :=
  @Build_Params (with_order o) 4 1 2 4 (lit 1.0) 2
    (lit 1.0) (lit 0.5) (lit 0.055) (lit 0.062).


(** The small run sampled with a negative interval, and with a seed patch
    that starts one cell before the origin. *)
Definition reversed_params : Params := {|
  N_POINTS := 4;
  SEED_START := 1;
  SEED_SIZE := 2;
  N_TIMES := 4;
  TIME_STEP := lit 1.0;
  N_STEPS := -2;
  DA := lit 1.0;
  DB := lit 0.5;
  f := lit 0.055;
  k := lit 0.062
|}.

Definition straddling_params : Params := {|
  N_POINTS := 4;
  SEED_START := -1;
  SEED_SIZE := 2;
  N_TIMES := 4;
  TIME_STEP := lit 1.0;
  N_STEPS := 2;
  DA := lit 1.0;
  DB := lit 0.5;
  f := lit 0.055;
  k := lit 0.062
|}.

(** The comparison [x == y] of two floats. *)
Definition eqb (x y : spec_float) : bool := SFeqb x y.

Definition pos_inf : spec_float := S754_infinity false.

(** Neither an infinity nor a NaN. *)
Definition is_finite (x : spec_float) : bool :=
  match x with
  | S754_zero _ | S754_finite _ _ _ => true
  | _ => false
  end.

(** The sign bit ([true] for negative). *)
Definition sign (x : spec_float) : bool :=
  match x with
  | S754_zero s | S754_finite s _ _ | S754_infinity s => s
  | S754_nan => false
  end.

End B32.

(** ** Exact arithmetic: rationals in canonical form *)

Module Exact.

#[export] Instance arith : Arith := {|
  pyfloat := Qc;
  f32 := Qc;
  py_lit := Q2Qc;
  py_add := Qcplus;
  py_mul := Qcmult;
  cast := λ x, x;
  f_add := Qcplus;
  f_sub := Qcminus;
  f_mul := Qcmult;
  f_neg := Qcopp;
  conv_order := pairwise
|}.

(** The rates of the notebook on a 2 x 2 grid. *)
Definition small_params : Params := {|
  N_POINTS := 2;
  SEED_START := 0;
  SEED_SIZE := 1;
  N_TIMES := 1;
  TIME_STEP := Q2Qc 1;
  N_STEPS := 1;
  DA := Q2Qc 1;
  DB := Q2Qc 0.5;
  f := Q2Qc 0.055;
  k := Q2Qc 0.062
|}.

End Exact.

(** A field with the same value in every cell. *)
Definition const_field {F} (n : nat) (c : F) : tensor2 F :=
  replicate n (replicate n c).

(** ** Index-level reading of the graph

    The cell-by-cell formulas against which the tensor program is
    compared. *)

(** One axis of [wrap_pad]: the last [size] entries, the axis, the first
    [size] entries. *)
Definition wrap_axis {A} (size : Z) (l : list A) : list A :=
  Py.slice (Some (- size)%Z) None l ++ l ++ Py.slice (Some 0%Z) (Some size) l.

(** The rank-4 tensor [1, n, m, 1] of a field. *)
Definition to4 {F} (t : tensor2 F) : tensor4 F :=
  [fmap (M := list) (λ v : F, [v]) <$> t].

Section Cells.
Context {Ar : Arith}.

(** The cell at row [i + di - 1] and column [j + dj - 1] of the torus of
    side [n]. *)
Definition torus (a : tensor2 f32) (n i j di dj : nat) : f32 :=
  default f_zero
    (lookup2 a ((i + di + n - 1) mod n) ((j + dj + n - 1) mod n)).

(** The literal of the kernel at tap [(di, dj)]. *)
Definition tap (di dj : nat) : Q :=
  if (di =? 1) && (dj =? 1) then (-1)%Q
  else if (di =? 1) || (dj =? 1) then 0.2%Q
  else 0.05%Q.

(** The tap scaled the way [kernel_a] and [kernel_b] scale it; [s] is the
    Python product of the diffusion coefficient and the time step. *)
Definition weight (s : pyfloat) (di dj : nat) : f32 :=
  f_mul (cast s) (cast (py_lit (tap di dj))).

(** The scaled kernel holds [weight s di dj] at tap [(di, dj)]. *)
Definition scaled (s : pyfloat) : tensor4 f32 :=
  [[[[weight s 0 0]]; [[weight s 0 1]]; [[weight s 0 2]]];
   [[[weight s 1 0]]; [[weight s 1 1]]; [[weight s 1 2]]];
   [[[weight s 2 0]]; [[weight s 2 1]]; [[weight s 2 2]]]].

Definition taps : list (nat * nat) :=
  [(0, 0); (0, 1); (0, 2); (1, 0); (1, 1); (1, 2); (2, 0); (2, 1); (2, 2)].

(** The nine products of the 3x3 neighbourhood of cell [(i, j)], added in
    the order of the convolution. *)
Definition stencil (s : pyfloat) (a : tensor2 f32) (n i j : nat) : f32 :=
  reduce conv_order
    ((λ '(di, dj), f_mul (torus a n i j di dj) (weight s di dj)) <$> taps).

(** The same sum when the nine cells all hold [c]. *)
Definition stencil_const (s : pyfloat) (c : f32) : f32 :=
  reduce conv_order ((λ '(di, dj), f_mul c (weight s di dj)) <$> taps).

(** [dt * (-a*b*b + f*(1 - a))] and [dt * (a*b*b - (k+f)*b)]. *)
Definition react_a_cell (p : Params) (a b : f32) : f32 :=
  f_mul (cast (TIME_STEP p))
    (f_add (f_mul (f_mul (f_neg a) b) b)
           (f_mul (cast (f p)) (f_sub f_one a))).

Definition react_b_cell (p : Params) (a b : f32) : f32 :=
  f_mul (cast (TIME_STEP p))
    (f_sub (f_mul (f_mul a b) b)
           (f_mul (cast (py_add (k p) (f p))) b)).

(** Whether index [i] lies in [SEED_START .. SEED_START + SEED_SIZE - 1]. *)
Definition in_seed (p : Params) (i : nat) : bool :=
  (SEED_START p <=? Z.of_nat i)%Z
  && (Z.of_nat i <? SEED_START p + SEED_SIZE p)%Z.

(** One cell of the next state, from the pre-step fields only. *)
Definition next_a_cell (p : Params) (a b : tensor2 f32) (n i j : nat) : f32 :=
  f_add (f_add (torus a n i j 1 1)
               (stencil (py_mul (DA p) (TIME_STEP p)) a n i j))
        (react_a_cell p (torus a n i j 1 1) (torus b n i j 1 1)).

Definition next_b_cell (p : Params) (a b : tensor2 f32) (n i j : nat) : f32 :=
  f_add (f_add (torus b n i j 1 1)
               (stencil (py_mul (DB p) (TIME_STEP p)) b n i j))
        (react_b_cell p (torus a n i j 1 1) (torus b n i j 1 1)).

End Cells.

(** The [n] x [n] field whose cell [(i, j)] is [u i j]. *)
Definition tab {F} (n : nat) (u : nat → nat → F) : tensor2 F :=
  (λ i, (λ j, u i j) <$> seq 0 n) <$> seq 0 n.

(** The number of entries [wrap_pad] puts before and after an axis of
    length [n]: the slices [-size:] and [0:size] are clamped to the axis,
    and [-0:] is the whole axis. *)
Definition halo_before (n : nat) (size : Z) : nat :=
  if (size =? 0)%Z then n else Z.to_nat size `min` n.

Definition halo_after (n : nat) (size : Z) : nat := Z.to_nat size `min` n.

(** ** Reading the record back (cell 8) *)

Section Record.
Context {Ar : Arith}.

(** The parameters with another sampling interval. *)
Definition with_N_STEPS (p : Params) (n_steps : Z) : Params :=
  {| N_POINTS := N_POINTS p; SEED_START := SEED_START p;
     SEED_SIZE := SEED_SIZE p; N_TIMES := N_TIMES p;
     TIME_STEP := TIME_STEP p; N_STEPS := n_steps;
     DA := DA p; DB := DB p; f := f p; k := k p |}.

(** [data = np.array(evolution)], [a_list = data[:,0,:,:]] and
    [b_list = data[:,1,:,:]].  The array is float64; the conversion of the
    float32 entries is exact, and the values are kept as they are. *)
Definition a_list (evolution : list (tensor2 f32 * tensor2 f32))
    : list (tensor2 f32) := fst <$> evolution.

Definition b_list (evolution : list (tensor2 f32 * tensor2 f32))
    : list (tensor2 f32) := snd <$> evolution.

End Record.

(** [x[i]] on the first axis of an array: a negative index counts from the
    end, an index outside [-len .. len - 1] raises [IndexError]. *)
Definition np_index {A} (x : list A) (i : Z) : option A :=
  let len := Z.of_nat (length x) in
  if (i <? - len)%Z || (len <=? i)%Z then None
  else x !! Z.to_nat (if (i <? 0)%Z then i + len else i)%Z.

(** ** Translations on the torus *)

(** The field moved by [u] rows and [v] columns on the torus: cell [(i, j)]
    of the result is cell [(i + u, j + v)] of the field, modulo [n]
    ([np.roll] by [(-u, -v)]). *)
Definition roll {Ar : Arith} (n u v : nat) (a : tensor2 f32) : tensor2 f32 :=
  tab n (λ i j, default f_zero (lookup2 a ((i + u) mod n) ((j + v) mod n))).

(** ** Frames for the animation (cells 8 and 9), in binary64 *)

Module Post.

(** The exact conversion of a binary32 value to binary64. *)
Definition to_f64 (x : spec_float) : spec_float :=
  match x with
  | S754_finite s m e => binary_round 53 1024 s m e
  | _ => x
  end.

(** [b_list = np.array(evolution)[:,1,:,:]], an array of float64. *)
Definition b_list (evolution : list (tensor2 spec_float * tensor2 spec_float))
    : list (tensor2 spec_float) :=
  fmap (M := list) (fmap (M := list) to_f64) <$> (snd <$> evolution).

Definition is_nan (x : spec_float) : bool :=
  match x with S754_nan => true | _ => false end.

Definition is_zero (x : spec_float) : bool :=
  match x with S754_zero _ => true | _ => false end.

(** [image.max()]: a NaN wins, and an empty array raises [ValueError]. *)
Definition np_max (values : list spec_float) : option spec_float :=
  match values with
  | [] => None
  | x :: rest =>
      Some (foldl (λ m y, if is_nan m then m
                          else if is_nan y then y
                          else if SFltb m y then y else m) x rest)
  end.

(** [def normalize(image): return image / image.max()] *)
Definition normalize (image : tensor2 spec_float)
    : option (tensor2 spec_float) :=
  m ← np_max (concat image);
  Some (fmap (M := list) (λ x, SFdiv 53 1024 x m) <$> image).

(** [def make_binary(image): return np.where(image < 0.2, 0.0, 1.0)] *)
Definition make_binary (image : tensor2 spec_float) : tensor2 spec_float :=
  fmap (M := list)
    (λ x, if SFltb x (B32.lit 0.2) then B32.lit 0.0 else B32.lit 1.0)
  <$> image.

(** [n_frames = b_list.shape[0] + 1], and the frame numbers
    [FuncAnimation(..., frames=n_frames)] asks for. *)
Definition n_frames (b_list : list (tensor2 spec_float)) : Z :=
  Z.of_nat (length b_list) + 1.

Definition frames (b_list : list (tensor2 spec_float)) : list Z :=
  Py.range (n_frames b_list).

(** [function_for_animation(frame_index)]: the image data it sets, or the
    exception of [b_list[frame_index,:,:]] or of [normalize]. *)
Definition function_for_animation (b_list : list (tensor2 spec_float))
    (frame_index : Z) : option (tensor2 spec_float) :=
  frame ← np_index b_list frame_index;
  normalize frame.

End Post.

(** * Properties *)

(** ** Slices *)

Section Slices.
Context {A : Type}.
Implicit Types l : list A.

Lemma slice_last l :
  1 ≤ length l → Py.slice (Some (- 1)%Z) None l = drop (length l - 1) l.
Proof.
  intros Hn. unfold Py.slice, Py.bounds, Py.norm_index. simpl.
  match goal with
  | |- take ?n (drop ?lo _) = _ =>
      replace lo with (length l - 1) by lia; replace n with 1 by lia
  end.
  apply take_ge. rewrite length_drop. lia.
Qed.

Lemma slice_first l : Py.slice (Some 0%Z) (Some 1%Z) l = take 1 l.
Proof.
  unfold Py.slice, Py.bounds, Py.norm_index. simpl.
  match goal with
  | |- take ?n (drop ?lo _) = _ =>
      replace lo with 0 by lia; replace n with (1 `min` length l) by lia
  end.
  rewrite drop_0. destruct l as [|x [|y l]]; done.
Qed.

Lemma length_wrap_axis l : 1 ≤ length l → length (wrap_axis 1 l) = length l + 2.
Proof.
  intros Hn. unfold wrap_axis. change (- (1))%Z with (-1)%Z.
  rewrite slice_last, slice_first by done.
  rewrite !length_app, length_drop, length_take. lia.
Qed.

(** Entry [k] of the padded axis is entry [k - 1] of the axis, modulo its
    length. *)
Lemma lookup_wrap_axis l k :
  1 ≤ length l → k < length l + 2 →
  wrap_axis 1 l !! k = l !! ((k + length l - 1) mod length l).
Proof.
  intros Hn Hk. unfold wrap_axis. change (- (1))%Z with (-1)%Z.
  rewrite slice_last, slice_first by done.
  destruct (decide (k = 0)) as [->|Hk0].
  { rewrite lookup_app_l by (rewrite length_drop; lia).
    rewrite lookup_drop. f_equal.
    rewrite Nat.mod_small; lia. }
  rewrite lookup_app_r by (rewrite length_drop; lia).
  rewrite length_drop.
  destruct (decide (k = length l + 1)) as [->|Hk1].
  { rewrite lookup_app_r by lia.
    replace (length l + 1 - (length l - (length l - 1)) - length l) with 0 by lia.
    replace (length l + 1 + length l - 1) with (0 + 2 * length l) by lia.
    rewrite Nat.Div0.mod_add, Nat.mod_small by lia.
    destruct l; [simpl in *; lia|done]. }
  rewrite lookup_app_l by lia. f_equal.
  replace (k + length l - 1) with (k - 1 + 1 * length l) by lia.
  rewrite Nat.Div0.mod_add, Nat.mod_small; lia.
Qed.

End Slices.

(** ** Shapes, tabulated fields and reshaping *)

Section Shapes.
Context {F : Type}.
Implicit Types t : tensor2 F.

Lemma has_shape2_spec n m t :
  has_shape2 n m t = true ↔ length t = n ∧ Forall (λ row, length row = m) t.
Proof.
  unfold has_shape2. rewrite andb_true_iff, Nat.eqb_eq, forallb_forall.
  rewrite Forall_forall. split; intros [H1 H2]; split; try done.
  - intros row Hrow. apply Nat.eqb_eq, H2. by apply list_elem_of_In.
  - intros row Hrow. apply Nat.eqb_eq, H2. by apply list_elem_of_In.
Qed.

Lemma length_tab n (u : nat → nat → F) : length (tab n u) = n.
Proof. unfold tab. by rewrite length_fmap, length_seq. Qed.

Lemma lookup_tab n (u : nat → nat → F) i :
  i < n → tab n u !! i = Some ((λ j, u i j) <$> seq 0 n).
Proof.
  intros Hi. unfold tab. rewrite list_lookup_fmap, lookup_seq_lt by done. done.
Qed.

Lemma lookup2_tab n (u : nat → nat → F) i j :
  i < n → j < n → lookup2 (tab n u) i j = Some (u i j).
Proof.
  intros Hi Hj. unfold lookup2. rewrite lookup_tab by done. simpl.
  rewrite list_lookup_fmap, lookup_seq_lt by done. done.
Qed.

Lemma has_shape2_tab n (u : nat → nat → F) : has_shape2 n n (tab n u) = true.
Proof.
  apply has_shape2_spec. split; [apply length_tab|].
  unfold tab. apply Forall_fmap, Forall_forall. intros i _. simpl.
  by rewrite length_fmap, length_seq.
Qed.

Lemma tab_ext n (u v : nat → nat → F) :
  (∀ i j, i < n → j < n → u i j = v i j) → tab n u = tab n v.
Proof.
  intros Huv. unfold tab. apply list_fmap_ext. intros i ? Hi.
  apply lookup_seq in Hi as [-> Hi].
  apply list_fmap_ext. intros j ? Hj. apply lookup_seq in Hj as [-> Hj].
  simpl. by apply Huv.
Qed.

Lemma fmap_seq_lookup {A} (l : list A) (d : A) :
  (λ i, default d (l !! i)) <$> seq 0 (length l) = l.
Proof.
  apply list_eq. intros i. rewrite list_lookup_fmap.
  destruct (decide (i < length l)) as [Hi|Hi].
  - rewrite lookup_seq_lt by done. simpl.
    destruct (lookup_lt_is_Some_2 l i Hi) as [x ->]. done.
  - rewrite lookup_seq_ge by lia. symmetry. apply lookup_ge_None. lia.
Qed.

(** A field of shape [n] x [n] is the table of its cells. *)
Lemma tab_lookup2 n t (d : F) :
  has_shape2 n n t = true → t = tab n (λ i j, default d (lookup2 t i j)).
Proof.
  intros [Hlen Hrows]%has_shape2_spec. unfold tab.
  rewrite <- (fmap_seq_lookup t []) at 1. rewrite Hlen.
  apply list_fmap_ext. intros i ? Hi. apply lookup_seq in Hi as [-> Hi].
  simpl. unfold lookup2.
  destruct (lookup_lt_is_Some_2 t i) as [row Hrow]; [lia|].
  rewrite Hrow. simpl.
  assert (length row = n) as Hr.
  { rewrite Forall_forall in Hrows. apply Hrows.
    by eapply list_elem_of_lookup_2. }
  rewrite <- (fmap_seq_lookup row d) at 1. by rewrite Hr.
Qed.

Lemma chunk_rows_concat {A} (rows : list (list A)) m :
  Forall (λ row, length row = m) rows →
  chunk_rows (length rows) m (concat rows) = rows.
Proof.
  induction 1 as [|row rows Hrow _ IH]; [done|].
  simpl. rewrite take_app_length' by done.
  rewrite drop_app_length' by done. by rewrite IH.
Qed.

Lemma chunk_rows_singletons (l : list F) :
  chunk_rows (length l) 1 l = (λ v, [v]) <$> l.
Proof.
  induction l as [|x l IH]; [done|]. csimpl. rewrite drop_0. by rewrite IH.
Qed.

Lemma length_concat_shape n m t :
  has_shape2 n m t = true → length (concat t) = n * m.
Proof.
  intros [<- Hrows]%has_shape2_spec.
  induction Hrows as [|row rows Hrow _ IH]; [done|].
  simpl. rewrite length_app, IH, Hrow. done.
Qed.

Lemma concat_singletons (l : list F) : concat ((λ v, [v]) <$> l) = l.
Proof. induction l as [|x l IH]; [done|]. csimpl. by rewrite IH. Qed.

Lemma reshape4_field n t :
  has_shape2 n n t = true → reshape4 1 n n 1 (concat t) = Some (to4 t).
Proof.
  intros Ht. unfold reshape4.
  pose proof (length_concat_shape _ _ _ Ht) as Hlen.
  replace (1 * n * n * 1) with (n * n) by lia.
  rewrite Hlen, Nat.eqb_refl. f_equal.
  replace (1 * n * n) with (length (concat t)) by lia.
  rewrite chunk_rows_singletons.
  apply has_shape2_spec in Ht as [Hn Hrows].
  assert ((λ v : F, [v]) <$> concat t
          = concat (fmap (M := list) (λ v : F, [v]) <$> t)) as ->.
  { clear. induction t as [|row t IH]; [done|].
    csimpl. by rewrite fmap_app, IH. }
  replace (1 * n) with (length (fmap (M := list) (λ v : F, [v]) <$> t))
    by (rewrite length_fmap; lia).
  rewrite chunk_rows_concat.
  2:{ apply Forall_fmap. eapply Forall_impl; [exact Hrows|].
      intros row Hr. simpl. by rewrite length_fmap. }
  unfold to4. simpl. rewrite take_ge; [done|]. rewrite length_fmap. lia.
Qed.

Lemma flatten4_to4 t : flatten4 (to4 t) = concat t.
Proof.
  unfold flatten4, to4. simpl. rewrite !app_nil_r.
  induction t as [|row t IH]; [done|].
  csimpl. rewrite concat_app, IH. by rewrite concat_singletons.
Qed.

Lemma reshape2_to4 n t :
  has_shape2 n n t = true → reshape2 n n (flatten4 (to4 t)) = Some t.
Proof.
  intros Ht. unfold reshape2. rewrite flatten4_to4.
  rewrite (length_concat_shape _ _ _ Ht), Nat.eqb_refl. f_equal.
  apply has_shape2_spec in Ht as [<- Hrows]. by apply chunk_rows_concat.
Qed.

End Shapes.

(** ** The padding, index by index *)

Section Padding.
Context {F : Type}.

Lemma zip_with_fmap_same {A B C D} (g : B → C → D) (h1 : A → B) (h2 : A → C)
    (l : list A) :
  zip_with g (h1 <$> l) (h2 <$> l) = (λ x, g (h1 x) (h2 x)) <$> l.
Proof. induction l as [|x l IH]; [done|]. csimpl. by rewrite IH. Qed.

Lemma zip_with_same_r {A B C} (g : A → B → C) (h : A → B) (l : list A) :
  zip_with g l (h <$> l) = (λ x, g x (h x)) <$> l.
Proof. induction l as [|x l IH]; [done|]. csimpl. by rewrite IH. Qed.

(** [wrap_pad] pads every row of every image, then the list of rows. *)
Lemma wrap_pad_fmap (t : tensor4 F) (size : Z) :
  wrap_pad t size = (λ img, wrap_axis size (wrap_axis size <$> img)) <$> t.
Proof.
  unfold wrap_pad, concat_axis1, concat_axis2, slice_axis1, slice_axis2.
  assert (zip_with (zip_with (λ rx ryz : list (list F), rx ++ ryz))
            (fmap (M := list) (Py.slice (Some (- size)%Z) None) <$> t)
            (zip_with (zip_with (λ ry rz : list (list F), ry ++ rz)) t
               (fmap (M := list) (Py.slice (Some 0%Z) (Some size)) <$> t))
          = fmap (M := list) (wrap_axis size) <$> t) as ->.
  { rewrite zip_with_same_r, zip_with_fmap_same.
    apply list_fmap_ext. intros _ img _.
    by rewrite zip_with_same_r, zip_with_fmap_same. }
  rewrite zip_with_same_r, zip_with_fmap_same.
  rewrite <- list_fmap_compose. done.
Qed.

Lemma wrap_pad_to4 (a : tensor2 F) :
  wrap_pad (to4 a) 1
  = [wrap_axis 1 (wrap_axis 1 <$> (fmap (M := list) (λ v : F, [v]) <$> a))].
Proof. by rewrite wrap_pad_fmap. Qed.

(** The cell [(r, c)] of the padded field is the cell [(r - 1, c - 1)] of
    the field, modulo its side. *)
Lemma lookup4_wrap_pad n (a : tensor2 F) r c :
  1 ≤ n → has_shape2 n n a = true → r < n + 2 → c < n + 2 →
  lookup4 (wrap_pad (to4 a) 1) 0 r c 0
  = lookup2 a ((r + n - 1) mod n) ((c + n - 1) mod n).
Proof.
  intros Hn [Hlen Hrows]%has_shape2_spec Hr Hc.
  rewrite wrap_pad_to4. unfold lookup4, lookup2. simpl.
  rewrite lookup_wrap_axis; rewrite !length_fmap, Hlen; [|done..].
  rewrite !list_lookup_fmap.
  destruct (lookup_lt_is_Some_2 a ((r + n - 1) mod n)) as [row Hrow].
  { rewrite Hlen. apply Nat.mod_upper_bound. lia. }
  rewrite Hrow. simpl.
  assert (length row = n) as Hlr.
  { rewrite Forall_forall in Hrows. apply Hrows.
    by eapply list_elem_of_lookup_2. }
  rewrite lookup_wrap_axis; rewrite length_fmap, Hlr; [|done..].
  rewrite list_lookup_fmap.
  destruct (row !! ((c + n - 1) mod n)); done.
Qed.

Lemma length_wrap_pad n (a : tensor2 F) :
  1 ≤ n → has_shape2 n n a = true →
  has_shape4 1 (n + 2) (n + 2) 1 (wrap_pad (to4 a) 1) = true.
Proof.
  intros Hn [Hlen Hrows]%has_shape2_spec. rewrite wrap_pad_to4.
  unfold has_shape4. simpl. rewrite andb_true_r.
  rewrite length_wrap_axis by (rewrite !length_fmap; lia).
  rewrite !length_fmap, Hlen, Nat.eqb_refl. simpl.
  apply forallb_forall. intros row Hin%list_elem_of_In.
  apply list_elem_of_lookup in Hin as [r Hr].
  assert (r < n + 2) as Hrn.
  { apply lookup_lt_Some in Hr.
    rewrite length_wrap_axis in Hr by (rewrite !length_fmap; lia).
    by rewrite !length_fmap, Hlen in Hr. }
  rewrite lookup_wrap_axis in Hr; rewrite !length_fmap, Hlen in *; [|done..].
  rewrite !list_lookup_fmap in Hr.
  destruct (a !! ((r + n - 1) mod n)) as [row0|] eqn:Hrow0; [|done].
  simpl in Hr. injection Hr as <-.
  assert (length row0 = n) as Hlr.
  { rewrite Forall_forall in Hrows. apply Hrows.
    by eapply list_elem_of_lookup_2. }
  rewrite length_wrap_axis by (rewrite length_fmap; lia).
  rewrite length_fmap, Hlr, Nat.eqb_refl. simpl.
  apply forallb_forall. intros px Hpx%list_elem_of_In.
  apply list_elem_of_lookup in Hpx as [c Hc].
  assert (c < n + 2) as Hcn.
  { apply lookup_lt_Some in Hc.
    rewrite length_wrap_axis in Hc by (rewrite length_fmap; lia).
    by rewrite length_fmap, Hlr in Hc. }
  rewrite lookup_wrap_axis in Hc; rewrite length_fmap, Hlr in *; [|done..].
  rewrite list_lookup_fmap in Hc.
  destruct (row0 !! ((c + n - 1) mod n)); simpl in Hc; [|done].
  by injection Hc as <-.
Qed.

End Padding.

(** ** One evaluation of the graph, cell by cell *)

Section GraphFacts.
Context {Ar : Arith}.
Implicit Types a b : tensor2 f32.
Implicit Types p : Params.

Lemma to4_tab n (u : nat → nat → f32) :
  to4 (tab n u) = [(λ i, (λ j, [u i j]) <$> seq 0 n) <$> seq 0 n].
Proof.
  unfold to4, tab. f_equal. rewrite <- list_fmap_compose.
  apply list_fmap_ext. intros _ i _. simpl. by rewrite <- list_fmap_compose.
Qed.

Lemma tmap_tab (g : f32 → f32) n (u : nat → nat → f32) :
  tmap g (to4 (tab n u)) = to4 (tab n (λ i j, g (u i j))).
Proof.
  rewrite !to4_tab. unfold tmap. csimpl. f_equal.
  rewrite <- list_fmap_compose. apply list_fmap_ext. intros _ i _. simpl.
  by rewrite <- list_fmap_compose.
Qed.

Lemma tzip_tab (g : f32 → f32 → f32) n (u v : nat → nat → f32) :
  tzip g (to4 (tab n u)) (to4 (tab n v)) = to4 (tab n (λ i j, g (u i j) (v i j))).
Proof.
  rewrite !to4_tab. unfold tzip. csimpl. f_equal.
  rewrite zip_with_fmap_same. apply list_fmap_ext. intros _ i _.
  by rewrite zip_with_fmap_same.
Qed.

Lemma torus_centre n a i j :
  i < n → j < n → torus a n i j 1 1 = default f_zero (lookup2 a i j).
Proof.
  intros Hi Hj. unfold torus.
  replace (i + 1 + n - 1) with (i + 1 * n) by lia.
  replace (j + 1 + n - 1) with (j + 1 * n) by lia.
  by rewrite !Nat.Div0.mod_add, !Nat.mod_small.
Qed.

(** A well-shaped field is the table of the centres of its stencils. *)
Lemma tab_torus n a :
  has_shape2 n n a = true → a = tab n (λ i j, torus a n i j 1 1).
Proof.
  intros Ha. rewrite (tab_lookup2 n a f_zero Ha) at 1.
  apply tab_ext. intros i j Hi Hj. by rewrite torus_centre.
Qed.

Lemma to4_torus n a :
  has_shape2 n n a = true → to4 a = to4 (tab n (λ i j, torus a n i j 1 1)).
Proof. intros Ha. by rewrite <- (tab_torus n a Ha). Qed.

Lemma kernel_eq :
  kernel = Some
    [[[[cast (py_lit 0.05)]]; [[cast (py_lit 0.2)]]; [[cast (py_lit 0.05)]]];
     [[[cast (py_lit 0.2)]]; [[cast (py_lit (-1))]]; [[cast (py_lit 0.2)]]];
     [[[cast (py_lit 0.05)]]; [[cast (py_lit 0.2)]]; [[cast (py_lit 0.05)]]]].
Proof. reflexivity. Qed.

Lemma kernel_a_eq p : kernel_a p = Some (scaled (py_mul (DA p) (TIME_STEP p))).
Proof. reflexivity. Qed.

Lemma kernel_b_eq p : kernel_b p = Some (scaled (py_mul (DB p) (TIME_STEP p))).
Proof. reflexivity. Qed.

Lemma at3_padded n a r c :
  1 ≤ n → has_shape2 n n a = true → r < n + 2 → c < n + 2 →
  at3 (wrap_axis 1 (wrap_axis 1 <$> (fmap (M := list) (λ v : f32, [v]) <$> a)))
      r c 0
  = default f_zero (lookup2 a ((r + n - 1) mod n) ((c + n - 1) mod n)).
Proof.
  intros Hn Ha Hr Hc.
  rewrite <- (lookup4_wrap_pad n a r c Hn Ha Hr Hc), wrap_pad_to4. done.
Qed.

Lemma dot_patch_stencil n a s i j :
  1 ≤ n → has_shape2 n n a = true → i < n → j < n →
  dot_patch (wrap_axis 1 (wrap_axis 1 <$> (fmap (M := list) (λ v : f32, [v]) <$> a)))
            (scaled s) 3 3 1 i j 0
  = stencil s a n i j.
Proof.
  intros Hn Ha Hi Hj. unfold dot_patch, stencil, patch_products, taps, scaled.
  f_equal. cbn [seq fmap list_fmap concat app lookup4 default].
  rewrite !(at3_padded n a) by (done || lia).
  unfold torus. cbn.
  rewrite !Nat.add_0_r. done.
Qed.


Lemma conv2d_padded n a s :
  1 ≤ n → has_shape2 n n a = true →
  conv2d (wrap_pad (to4 a) 1) (scaled s) = Some (to4 (tab n (stencil s a n))).
Proof.
  intros Hn Ha.
  pose proof (length_wrap_pad n a Hn Ha) as Hshape.
  rewrite wrap_pad_to4 in *. unfold conv2d.
  set (img := wrap_axis 1 _) in *.
  unfold has_shape4 in Hshape. simpl in Hshape.
  apply andb_true_iff in Hshape as [[Hh Hrows]%andb_true_iff _].
  apply Nat.eqb_eq in Hh.
  assert (length (default [] (head img)) = n + 2) as Hw.
  { destruct img as [|row img']; [simpl in Hh; lia|].
    simpl in Hrows. apply andb_true_iff in Hrows as [Hrow _].
    apply andb_true_iff in Hrow as [Hrow _]. by apply Nat.eqb_eq in Hrow. }
  cbn [head default from_option id fmap list_fmap length scaled] in *.
  rewrite Hh, Hw.
  replace ((n + 2 <? 3) || (n + 2 <? 3)) with false
    by (symmetry; apply orb_false_iff; split; apply Nat.ltb_ge; lia).
  replace (n + 2 + 1 - 3) with n by lia.
  f_equal. rewrite to4_tab. f_equal.
  apply list_fmap_ext. intros i ? [-> Hi]%lookup_seq.
  apply list_fmap_ext. intros j ? [-> Hj]%lookup_seq.
  cbn [seq fmap list_fmap]. f_equal.
  change (dot_patch img (scaled s) 3 3 1 (0 + i) (0 + j) 0
          = stencil s a n (0 + i) (0 + j)).
  by apply dot_patch_stencil.
Qed.

Lemma diff_a_cells n p a :
  1 ≤ n → has_shape2 n n a = true →
  diff_a p (to4 a)
  = Some (to4 (tab n (stencil (py_mul (DA p) (TIME_STEP p)) a n))).
Proof.
  intros Hn Ha. unfold diff_a. rewrite kernel_a_eq. simpl.
  by apply conv2d_padded.
Qed.

Lemma diff_b_cells n p b :
  1 ≤ n → has_shape2 n n b = true →
  diff_b p (to4 b)
  = Some (to4 (tab n (stencil (py_mul (DB p) (TIME_STEP p)) b n))).
Proof.
  intros Hn Hb. unfold diff_b. rewrite kernel_b_eq. simpl.
  by apply conv2d_padded.
Qed.

Lemma react_a_cells n p a b :
  has_shape2 n n a = true → has_shape2 n n b = true →
  react_a p (to4 a) (to4 b)
  = to4 (tab n (λ i j, react_a_cell p (torus a n i j 1 1) (torus b n i j 1 1))).
Proof.
  intros Ha Hb. unfold react_a.
  rewrite (to4_torus n a Ha), (to4_torus n b Hb).
  by rewrite !tmap_tab, !tzip_tab, !tmap_tab.
Qed.

Lemma react_b_cells n p a b :
  has_shape2 n n a = true → has_shape2 n n b = true →
  react_b p (to4 a) (to4 b)
  = to4 (tab n (λ i j, react_b_cell p (torus a n i j 1 1) (torus b n i j 1 1))).
Proof.
  intros Ha Hb. unfold react_b.
  rewrite (to4_torus n a Ha), (to4_torus n b Hb).
  by rewrite !tmap_tab, !tzip_tab, !tmap_tab.
Qed.

Lemma next_a_cells n p a b :
  1 ≤ n → Z.to_nat (N_POINTS p) = n →
  has_shape2 n n a = true → has_shape2 n n b = true →
  next_a p (to4 a) (to4 b) = Some (tab n (next_a_cell p a b n)).
Proof.
  intros Hn HN Ha Hb. unfold next_a.
  rewrite (diff_a_cells n), (react_a_cells n) by done.
  rewrite (to4_torus n a Ha). cbn [mbind option_bind].
  rewrite !tzip_tab, HN. apply reshape2_to4, has_shape2_tab.
Qed.

Lemma next_b_cells n p a b :
  1 ≤ n → Z.to_nat (N_POINTS p) = n →
  has_shape2 n n a = true → has_shape2 n n b = true →
  next_b p (to4 a) (to4 b) = Some (tab n (next_b_cell p a b n)).
Proof.
  intros Hn HN Ha Hb. unfold next_b.
  rewrite (diff_b_cells n), (react_b_cells n) by done.
  rewrite (to4_torus n b Hb). cbn [mbind option_bind].
  rewrite !tzip_tab, HN. apply reshape2_to4, has_shape2_tab.
Qed.

Lemma placeholder_ok n p a :
  Z.to_nat (N_POINTS p) = n → (0 ≤ N_POINTS p)%Z →
  has_shape2 n n a = true → placeholder p a = Some a.
Proof.
  intros HN Hpos Ha. unfold placeholder. rewrite HN, Ha.
  by replace (0 <=? N_POINTS p)%Z with true by (symmetry; apply Z.leb_le; lia).
Qed.

(** One evaluation of the graph on well-shaped fields: it succeeds, and
    every cell of the result is given by [next_a_cell] and [next_b_cell]. *)
Lemma sess_run_cells n p a b :
  1 ≤ n → Z.to_nat (N_POINTS p) = n →
  has_shape2 n n a = true → has_shape2 n n b = true →
  sess_run p a b
  = Some (tab n (next_a_cell p a b n), tab n (next_b_cell p a b n)).
Proof.
  intros Hn HN Ha Hb. unfold sess_run.
  rewrite !(placeholder_ok n) by (done || lia). simpl.
  unfold input_a, input_b. rewrite HN.
  rewrite !reshape4_field by done. simpl.
  rewrite (next_a_cells n), (next_b_cells n) by done. done.
Qed.

End GraphFacts.

(** ** The periodic wrap *)

Section Wrap.
Context {F : Type}.
Implicit Types field : tensor2 F.

Lemma lookup2_is_Some n field i j :
  has_shape2 n n field = true → i < n → j < n → is_Some (lookup2 field i j).
Proof.
  intros [Hlen Hrows]%has_shape2_spec Hi Hj. unfold lookup2.
  destruct (lookup_lt_is_Some_2 field i) as [row Hrow]; [lia|].
  rewrite Hrow. simpl. apply lookup_lt_is_Some_2.
  rewrite Forall_forall in Hrows. rewrite (Hrows row); [done|].
  by eapply list_elem_of_lookup_2.
Qed.

(** C2. For an [n] x [n] field, the halo of [wrap_pad (field, 1)] holds the
    opposite edge of the field: padded row 0 is row [n - 1] and padded row
    [n + 1] is row 0 (at every interior column [h] in [1 .. n]), padded
    column 0 is column [n - 1] and padded column [n + 1] is column 0 (at
    every interior row), and the corner [(0, 0)] holds the cell
    [(n - 1, n - 1)], as on a torus; so do the three other corners.  Every
    cell named exists. *)
Theorem wrap_pad_halo n field :
  1 ≤ n → has_shape2 n n field = true →
  let padded := wrap_pad (to4 field) 1 in
  (∀ h, 1 ≤ h ≤ n →
     (∃ v, lookup2 field (n - 1) (h - 1) = Some v
           ∧ lookup4 padded 0 0 h 0 = Some v)
     ∧ (∃ v, lookup2 field 0 (h - 1) = Some v
             ∧ lookup4 padded 0 (n + 1) h 0 = Some v))
  ∧ (∀ r, 1 ≤ r ≤ n →
       (∃ v, lookup2 field (r - 1) (n - 1) = Some v
             ∧ lookup4 padded 0 r 0 0 = Some v)
       ∧ (∃ v, lookup2 field (r - 1) 0 = Some v
               ∧ lookup4 padded 0 r (n + 1) 0 = Some v))
  ∧ (∃ v, lookup2 field (n - 1) (n - 1) = Some v
          ∧ lookup4 padded 0 0 0 0 = Some v)
  ∧ (∃ v, lookup2 field (n - 1) 0 = Some v
          ∧ lookup4 padded 0 0 (n + 1) 0 = Some v)
  ∧ (∃ v, lookup2 field 0 (n - 1) = Some v
          ∧ lookup4 padded 0 (n + 1) 0 0 = Some v)
  ∧ (∃ v, lookup2 field 0 0 = Some v
          ∧ lookup4 padded 0 (n + 1) (n + 1) 0 = Some v).
Proof.
  intros Hn Hshape padded.
  assert (∀ r c i j, r < n + 2 → c < n + 2 →
            (r + n - 1) mod n = i → (c + n - 1) mod n = j → i < n → j < n →
            ∃ v, lookup2 field i j = Some v ∧ lookup4 padded 0 r c 0 = Some v)
    as Hcell.
  { intros r c i j Hr Hc Hi Hj Hin Hjn.
    destruct (lookup2_is_Some n field i j Hshape Hin Hjn) as [v Hv].
    exists v. split; [done|]. unfold padded.
    by rewrite (lookup4_wrap_pad n), Hi, Hj. }
  assert ((0 + n - 1) mod n = n - 1) as H0 by (apply Nat.mod_small; lia).
  assert ((n + 1 + n - 1) mod n = 0) as Hlast.
  { replace (n + 1 + n - 1) with (0 + 2 * n) by lia.
    rewrite Nat.Div0.mod_add. apply Nat.mod_small. lia. }
  assert (∀ h, 1 ≤ h ≤ n → (h + n - 1) mod n = h - 1) as Hmid.
  { intros h Hh. replace (h + n - 1) with (h - 1 + 1 * n) by lia.
    rewrite Nat.Div0.mod_add. apply Nat.mod_small. lia. }
  split; [|split; [|repeat split]].
  - intros h Hh. split; apply Hcell; auto with lia.
  - intros r Hr. split; apply Hcell; auto with lia.
  - apply Hcell; auto with lia.
  - apply Hcell; auto with lia.
  - apply Hcell; auto with lia.
  - apply Hcell; auto with lia.
Qed.

(** C10. Padding leaves the field in place: the padded cell
    [(i + 1, j + 1)] is the cell [(i, j)] of the field, for every cell of
    the field. *)
Theorem wrap_pad_interior n field i j :
  has_shape2 n n field = true → i < n → j < n →
  ∃ v, lookup2 field i j = Some v
       ∧ lookup4 (wrap_pad (to4 field) 1) 0 (i + 1) (j + 1) 0 = Some v.
Proof.
  intros Hshape Hi Hj.
  destruct (lookup2_is_Some n field i j Hshape Hi Hj) as [v Hv].
  exists v. split; [done|].
  rewrite (lookup4_wrap_pad n) by (done || lia).
  replace (i + 1 + n - 1) with (i + 1 * n) by lia.
  replace (j + 1 + n - 1) with (j + 1 * n) by lia.
  by rewrite !Nat.Div0.mod_add, !Nat.mod_small.
Qed.

End Wrap.

(** ** One step *)

Section Step.
Context {Ar : Arith}.
Implicit Types a b : tensor2 f32.
Implicit Types p : Params.

Lemma lookup4_to4 {F} (t : tensor2 F) i j : lookup4 (to4 t) 0 i j 0 = lookup2 t i j.
Proof.
  unfold lookup4, lookup2, to4. simpl. rewrite list_lookup_fmap.
  destruct (t !! i) as [row|]; [|done]. simpl. rewrite list_lookup_fmap.
  by destruct (row !! j).
Qed.

Lemma has_shape4_to4 {F} n (t : tensor2 F) :
  has_shape2 n n t = true → has_shape4 1 n n 1 (to4 t) = true.
Proof.
  intros [Hlen Hrows]%has_shape2_spec. unfold has_shape4, to4. simpl.
  rewrite andb_true_r, length_fmap, Hlen, Nat.eqb_refl. simpl.
  apply forallb_forall. intros row Hin%list_elem_of_In.
  apply list_elem_of_fmap in Hin as [row0 [-> Hin]].
  rewrite Forall_forall in Hrows.
  rewrite length_fmap, (Hrows _ Hin), Nat.eqb_refl. simpl.
  apply forallb_forall. intros px Hpx%list_elem_of_In.
  by apply list_elem_of_fmap in Hpx as [v [-> _]].
Qed.

Lemma torus_lookup n a i j v :
  i < n → j < n → lookup2 a i j = Some v → torus a n i j 1 1 = v.
Proof. intros Hi Hj Hv. by rewrite torus_centre, Hv. Qed.

(** C9. On two [n] x [n] fields, with [n = N_POINTS] at least 1, one
    evaluation of the graph succeeds and returns two [n] x [n] fields.
    On the way the input is padded to [(n + 2)] x [(n + 2)], and its VALID
    convolution with the 3x3 kernel is [n] x [n] again. *)
Theorem sess_run_shape p a b :
  let n := Z.to_nat (N_POINTS p) in
  1 ≤ n → has_shape2 n n a = true → has_shape2 n n b = true →
  (∃ new_a new_b,
      sess_run p a b = Some (new_a, new_b)
      ∧ has_shape2 n n new_a = true ∧ has_shape2 n n new_b = true)
  ∧ (∃ ia, input_a p a = Some ia
           ∧ has_shape4 1 n n 1 ia = true
           ∧ has_shape4 1 (n + 2) (n + 2) 1 (wrap_pad ia 1) = true
           ∧ ∃ d, diff_a p ia = Some d ∧ has_shape4 1 n n 1 d = true)
  ∧ (∃ ib, input_b p b = Some ib
           ∧ has_shape4 1 n n 1 ib = true
           ∧ has_shape4 1 (n + 2) (n + 2) 1 (wrap_pad ib 1) = true
           ∧ ∃ d, diff_b p ib = Some d ∧ has_shape4 1 n n 1 d = true).
Proof.
  intros n Hn Ha Hb. split; [|split].
  - eexists _, _. split; [by apply (sess_run_cells n)|].
    split; apply has_shape2_tab.
  - exists (to4 a). unfold input_a. fold n.
    split; [by apply reshape4_field|].
    split; [by apply has_shape4_to4|].
    split; [by apply length_wrap_pad|].
    eexists. split; [by apply (diff_a_cells n)|].
    apply has_shape4_to4, has_shape2_tab.
  - exists (to4 b). unfold input_b. fold n.
    split; [by apply reshape4_field|].
    split; [by apply has_shape4_to4|].
    split; [by apply length_wrap_pad|].
    eexists. split; [by apply (diff_b_cells n)|].
    apply has_shape4_to4, has_shape2_tab.
Qed.

(** C1. One step is forward Euler on the pre-step fields: the two
    diffusion terms [diff_a], [diff_b] and the two reaction terms
    [react_a], [react_b] are values of the graph on the fed fields [a] and
    [b] themselves (the diffusion term of a cell is the stencil over its
    neighbours in the fed field), and every cell of the result is
    [new_a = (a + diff_a) + react_a] and [new_b = (b + diff_b) + react_b]. *)
Theorem sess_run_euler p a b :
  let n := Z.to_nat (N_POINTS p) in
  1 ≤ n → has_shape2 n n a = true → has_shape2 n n b = true →
  ∃ ia ib da db new_a new_b,
    input_a p a = Some ia ∧ input_b p b = Some ib
    ∧ diff_a p ia = Some da ∧ diff_b p ib = Some db
    ∧ sess_run p a b = Some (new_a, new_b)
    ∧ ∀ i j, i < n → j < n →
        ∃ x y dx dy rx ry,
          lookup2 a i j = Some x ∧ lookup2 b i j = Some y
          ∧ lookup4 da 0 i j 0 = Some dx ∧ lookup4 db 0 i j 0 = Some dy
          ∧ dx = stencil (py_mul (DA p) (TIME_STEP p)) a n i j
          ∧ dy = stencil (py_mul (DB p) (TIME_STEP p)) b n i j
          ∧ lookup4 (react_a p ia ib) 0 i j 0 = Some rx
          ∧ lookup4 (react_b p ia ib) 0 i j 0 = Some ry
          ∧ lookup2 new_a i j = Some (f_add (f_add x dx) rx)
          ∧ lookup2 new_b i j = Some (f_add (f_add y dy) ry).
Proof.
  intros n Hn Ha Hb.
  exists (to4 a), (to4 b). eexists _, _, _, _.
  split; [by apply reshape4_field|]. split; [by apply reshape4_field|].
  split; [by apply (diff_a_cells n)|]. split; [by apply (diff_b_cells n)|].
  split; [by apply (sess_run_cells n)|].
  intros i j Hi Hj.
  destruct (lookup2_is_Some n a i j Ha Hi Hj) as [x Hx].
  destruct (lookup2_is_Some n b i j Hb Hi Hj) as [y Hy].
  exists x, y. eexists _, _, _, _.
  rewrite (react_a_cells n), (react_b_cells n) by done.
  rewrite !lookup4_to4, !lookup2_tab by done.
  unfold next_a_cell, next_b_cell.
  rewrite (torus_lookup n a i j x), (torus_lookup n b i j y) by done.
  repeat split; done.
Qed.

(** C5. The reaction terms are computed cell by cell from the fed fields:
    at every cell, with [x] and [y] the values of [a] and [b] there,
    [react_a] is [dt * (-x*y*y + f*(1 - x))] and [react_b] is
    [dt * (x*y*y - (k + f)*y)]. *)
Theorem react_pointwise p a b i j :
  let n := Z.to_nat (N_POINTS p) in
  has_shape2 n n a = true → has_shape2 n n b = true → i < n → j < n →
  ∃ ia ib x y,
    input_a p a = Some ia ∧ input_b p b = Some ib
    ∧ lookup2 a i j = Some x ∧ lookup2 b i j = Some y
    ∧ lookup4 (react_a p ia ib) 0 i j 0
      = Some (f_mul (cast (TIME_STEP p))
                (f_add (f_mul (f_mul (f_neg x) y) y)
                       (f_mul (cast (f p)) (f_sub (cast (py_lit 1)) x))))
    ∧ lookup4 (react_b p ia ib) 0 i j 0
      = Some (f_mul (cast (TIME_STEP p))
                (f_sub (f_mul (f_mul x y) y)
                       (f_mul (cast (py_add (k p) (f p))) y))).
Proof.
  intros n Ha Hb Hi Hj.
  destruct (lookup2_is_Some n a i j Ha Hi Hj) as [x Hx].
  destruct (lookup2_is_Some n b i j Hb Hi Hj) as [y Hy].
  exists (to4 a), (to4 b), x, y.
  split; [by apply reshape4_field|]. split; [by apply reshape4_field|].
  split; [done|]. split; [done|].
  rewrite (react_a_cells n), (react_b_cells n) by done.
  rewrite !lookup4_to4, !lookup2_tab by done.
  rewrite (torus_lookup n a i j x), (torus_lookup n b i j y) by done.
  done.
Qed.

End Step.

(** ** Starting conditions *)

Section SliceUpdate.
Context {A : Type}.
Implicit Types l : list A.

Lemma bounds_le len start stop :
  (0 ≤ len)%Z →
  (Py.bounds len start stop).1 + (Py.bounds len start stop).2 ≤ Z.to_nat len.
Proof.
  intros Hlen. unfold Py.bounds, Py.norm_index.
  destruct start as [i|], stop as [j|]; simpl;
    repeat case_match; lia.
Qed.

Lemma length_slice_update start stop (g : A → A) l :
  length (Py.slice_update start stop g l) = length l.
Proof.
  unfold Py.slice_update.
  pose proof (bounds_le (Z.of_nat (length l)) start stop) as Hb.
  destruct (Py.bounds _ start stop) as [lo cnt]. simpl in Hb.
  rewrite !length_app, length_fmap, !length_take, !length_drop. lia.
Qed.

Lemma lookup_slice_update start stop (g : A → A) l i :
  Py.slice_update start stop g l !! i
  = (λ x, if Py.selects (Z.of_nat (length l)) start stop i then g x else x)
      <$> l !! i.
Proof.
  unfold Py.slice_update, Py.selects.
  pose proof (bounds_le (Z.of_nat (length l)) start stop) as Hb.
  destruct (Py.bounds _ start stop) as [lo cnt]. simpl in Hb.
  destruct (decide (i < lo)) as [Hlo|Hlo].
  { rewrite lookup_app_l by (rewrite length_take; lia).
    rewrite lookup_take_lt by done.
    replace (lo <=? i) with false by (symmetry; apply Nat.leb_gt; lia).
    simpl. by destruct (l !! i). }
  rewrite lookup_app_r by (rewrite length_take; lia).
  rewrite length_take. replace (lo `min` length l) with lo by lia.
  replace (lo <=? i) with true by (symmetry; apply Nat.leb_le; lia).
  destruct (decide (i < lo + cnt)) as [Hhi|Hhi].
  { rewrite lookup_app_l
      by (rewrite length_fmap, length_take, length_drop; lia).
    rewrite list_lookup_fmap, lookup_take_lt, lookup_drop by lia.
    replace (i <? lo + cnt) with true by (symmetry; apply Nat.ltb_lt; lia).
    replace (lo + (i - lo)) with i by lia. done. }
  rewrite lookup_app_r
    by (rewrite length_fmap, length_take, length_drop; lia).
  rewrite length_fmap, length_take, length_drop, lookup_drop.
  replace (i <? lo + cnt) with false by (symmetry; apply Nat.ltb_ge; lia).
  replace (lo + cnt + (i - lo - cnt `min` (length l - lo))) with i by lia.
  simpl. by destruct (l !! i).
Qed.

End SliceUpdate.

Section Init.
Context {Ar : Arith}.
Implicit Types p : Params.

Lemma has_shape2_const {F} n (c : F) : has_shape2 n n (const_field n c) = true.
Proof.
  apply has_shape2_spec. unfold const_field. split; [apply length_replicate|].
  apply Forall_replicate, length_replicate.
Qed.

Lemma lookup2_const {F} n (c : F) i j :
  i < n → j < n → lookup2 (const_field n c) i j = Some c.
Proof.
  intros Hi Hj. unfold lookup2, const_field.
  rewrite lookup_replicate_2 by done. simpl. by apply lookup_replicate_2.
Qed.

Lemma has_shape2_seed p n b :
  has_shape2 n n b = true → has_shape2 n n (seed p b) = true.
Proof.
  intros [Hlen Hrows]%has_shape2_spec. apply has_shape2_spec. unfold seed.
  split; [by rewrite length_slice_update|].
  apply Forall_lookup. intros i row Hrow.
  rewrite lookup_slice_update in Hrow.
  destruct (b !! i) as [row0|] eqn:Hrow0; [|done].
  assert (length row0 = n) as Hl0.
  { rewrite Forall_forall in Hrows. apply Hrows.
    by eapply list_elem_of_lookup_2. }
  simpl in Hrow. injection Hrow as <-.
  destruct (Py.selects _ _ _ _); [|done]. by rewrite length_slice_update.
Qed.

Lemma seed_bounds p n i :
  (0 ≤ SEED_START p)%Z → (0 ≤ SEED_SIZE p)%Z → i < n →
  Py.selects (Z.of_nat n) (Some (SEED_START p))
    (Some (SEED_START p + SEED_SIZE p)%Z) i
  = in_seed p i.
Proof.
  intros HS HZ Hi. unfold Py.selects, Py.bounds, Py.norm_index, in_seed. simpl.
  replace (SEED_START p <? 0)%Z with false by (symmetry; apply Z.ltb_ge; lia).
  replace (SEED_START p + SEED_SIZE p <? 0)%Z with false
    by (symmetry; apply Z.ltb_ge; lia).
  apply eq_true_iff_eq.
  rewrite !andb_true_iff, Nat.leb_le, Nat.ltb_lt, Z.leb_le, Z.ltb_lt. lia.
Qed.

Lemma lookup2_seed p n b i j v :
  (0 ≤ SEED_START p)%Z → (0 ≤ SEED_SIZE p)%Z →
  has_shape2 n n b = true → i < n → j < n →
  lookup2 b i j = Some v →
  lookup2 (seed p b) i j
  = Some (if in_seed p i && in_seed p j then f_one else v).
Proof.
  intros HS HZ [Hlen Hrows]%has_shape2_spec Hi Hj Hv.
  unfold lookup2, seed in *. rewrite lookup_slice_update.
  destruct (b !! i) as [row|] eqn:Hrow; [|done]. simpl in *.
  assert (length row = n) as Hl.
  { rewrite Forall_forall in Hrows. apply Hrows.
    by eapply list_elem_of_lookup_2. }
  rewrite Hlen, (seed_bounds p n i) by done.
  destruct (in_seed p i); simpl; [|done].
  rewrite lookup_slice_update, Hv. simpl.
  by rewrite Hl, (seed_bounds p n j).
Qed.

Lemma initialize_eq p :
  (0 ≤ N_POINTS p)%Z →
  initialize p
  = Some (const_field (Z.to_nat (N_POINTS p)) f_one,
          seed p (const_field (Z.to_nat (N_POINTS p)) f_zero)).
Proof.
  intros HN. unfold initialize, np_full.
  replace (N_POINTS p <? 0)%Z with false by (symmetry; apply Z.ltb_ge; lia).
  done.
Qed.

(** C4, as the notebook has it.  Nothing checks that the seed patch fits:
    for a non-negative grid size and non-negative seed origin and size the
    starting state is built whatever [SEED_START + SEED_SIZE] is.  [a] is
    1.0 everywhere; [b] is 1.0 on the cells of the grid whose row and
    column both lie in [SEED_START .. SEED_START + SEED_SIZE - 1], and 0.0
    elsewhere (the whole block when it fits, its part inside the grid when
    it does not). *)
Theorem initialize_seeded p :
  let n := Z.to_nat (N_POINTS p) in
  (0 ≤ N_POINTS p)%Z → (0 ≤ SEED_START p)%Z → (0 ≤ SEED_SIZE p)%Z →
  ∃ a b,
    initialize p = Some (a, b)
    ∧ has_shape2 n n a = true ∧ has_shape2 n n b = true
    ∧ ∀ i j, i < n → j < n →
        lookup2 a i j = Some (cast (py_lit 1))
        ∧ lookup2 b i j
          = Some (if in_seed p i && in_seed p j then cast (py_lit 1)
                  else cast (py_lit 0)).
Proof.
  intros n HN HS HZ. eexists _, _. split; [by apply initialize_eq|].
  fold n. split; [apply has_shape2_const|].
  split; [apply has_shape2_seed, has_shape2_const|].
  intros i j Hi Hj. split; [by apply lookup2_const|].
  apply (lookup2_seed p n); try done; [apply has_shape2_const|].
  by apply lookup2_const.
Qed.

End Init.

(** ** The driver loop *)

Section Driver.
Context {Ar : Arith}.
Implicit Types p : Params.
Implicit Types s : tensor2 f32 * tensor2 f32.

Lemma for_each_app {S A} (body : S → A → option S) (l1 l2 : list A) (st : S) :
  for_each body (l1 ++ l2) st
  = st' ← for_each body l1 st; for_each body l2 st'.
Proof.
  revert st. induction l1 as [|x l1 IH]; intros st; [done|].
  simpl. destruct (body st x) as [st'|]; [|done]. simpl. apply IH.
Qed.

Lemma sess_run_well_shaped p s :
  (1 ≤ N_POINTS p)%Z → well_shaped p s →
  ∃ s', sess_run p s.1 s.2 = Some s' ∧ well_shaped p s'.
Proof.
  intros HN [Ha Hb]. eexists. split.
  - apply (sess_run_cells (Z.to_nat (N_POINTS p))); (done || lia).
  - split; apply has_shape2_tab.
Qed.

Lemma steps_snoc p m s :
  steps p (S m) s = s' ← steps p m s; sess_run p s'.1 s'.2.
Proof.
  revert s. induction m as [|m IH]; intros s.
  - simpl. by destruct (sess_run p s.1 s.2).
  - change (steps p (S (S m)) s)
      with (s' ← sess_run p s.1 s.2; steps p (S m) s').
    change (steps p (S m) s)
      with (s' ← sess_run p s.1 s.2; steps p m s').
    destruct (sess_run p s.1 s.2) as [s'|]; [|done].
    cbn [mbind option_bind]. apply IH.
Qed.

(** From a well-shaped state every number of steps can be taken. *)
Lemma steps_total p m s :
  (1 ≤ N_POINTS p)%Z → well_shaped p s →
  steps p m s = Some (state_after p s m) ∧ well_shaped p (state_after p s m).
Proof.
  intros HN Hs. unfold state_after. induction m as [|m [IH1 IH2]]; [done|].
  rewrite steps_snoc, IH1 in *. simpl in *.
  destruct (sess_run_well_shaped p _ HN IH2) as [s' [-> Hs']]. done.
Qed.

Lemma state_after_S p m s :
  (1 ≤ N_POINTS p)%Z → well_shaped p s →
  sess_run p (state_after p s m).1 (state_after p s m).2
  = Some (state_after p s (S m)).
Proof.
  intros HN Hs.
  destruct (steps_total p m s HN Hs) as [Hm _].
  destruct (steps_total p (S m) s HN Hs) as [HSm _].
  rewrite steps_snoc, Hm in HSm. done.
Qed.

Lemma div_succ_hit m ns :
  1 ≤ ns → (m + 1) mod ns = 0 →
  (m + 1) / ns = m / ns + 1 ∧ m + 1 = ((m + 1) / ns) * ns.
Proof.
  intros Hns Hmod.
  pose proof (Nat.div_mod_eq (m + 1) ns) as H1.
  pose proof (Nat.div_mod_eq m ns) as H2.
  pose proof (Nat.mod_upper_bound m ns ltac:(lia)) as H3.
  rewrite Hmod in H1. split; [|lia]. nia.
Qed.

Lemma div_succ_miss m ns :
  1 ≤ ns → (m + 1) mod ns ≠ 0 → (m + 1) / ns = m / ns.
Proof.
  intros Hns Hmod.
  pose proof (Nat.div_mod_eq (m + 1) ns) as H1.
  pose proof (Nat.div_mod_eq m ns) as H2.
  pose proof (Nat.mod_upper_bound m ns ltac:(lia)) as H3.
  pose proof (Nat.mod_upper_bound (m + 1) ns ltac:(lia)) as H4.
  nia.
Qed.

Lemma samples_S p s (m : nat) :
  (1 ≤ N_STEPS p)%Z →
  samples p s (S m)
  = if ((Z.of_nat m + 1) mod N_STEPS p =? 0)%Z
    then samples p s m ++ [((Z.of_nat m + 1)%Z, state_after p s (S m))]
    else samples p s m.
Proof.
  intros HS. unfold samples. set (ns := Z.to_nat (N_STEPS p)).
  assert ((Z.of_nat m + 1) mod N_STEPS p = Z.of_nat ((m + 1) mod ns))%Z as ->.
  { rewrite Nat2Z.inj_mod. unfold ns. f_equal; lia. }
  replace (S m) with (m + 1) by lia.
  destruct (decide ((m + 1) mod ns = 0)) as [Hz|Hnz].
  - rewrite Hz. change (Z.of_nat 0 =? 0)%Z with true. cbv iota.
    destruct (div_succ_hit m ns) as [Hq Hm]; [lia|done|].
    rewrite Hq. replace (m / ns + 1) with (S (m / ns)) by lia.
    rewrite (seq_S (S (m / ns))), fmap_app. f_equal.
    replace (0 + S (m / ns)) with ((m + 1) / ns) by lia.
    cbn [fmap list_fmap]. rewrite <- Hm. do 2 f_equal. lia.
  - replace (Z.of_nat ((m + 1) mod ns) =? 0)%Z with false
      by (symmetry; apply Z.eqb_neq; lia).
    by rewrite div_succ_miss by (done || lia).
Qed.

Lemma traced_prefix p s0 (m : nat) :
  (1 ≤ N_POINTS p)%Z → (1 ≤ N_STEPS p)%Z → well_shaped p s0 →
  for_each (traced_body p) (seqZ 0 (Z.of_nat m))
    {| t_a := s0.1; t_b := s0.2; t_evolution := [(0%Z, s0)] |}
  = Some {| t_a := (state_after p s0 m).1; t_b := (state_after p s0 m).2;
            t_evolution := samples p s0 m |}.
Proof.
  intros HN HS Hs0. induction m as [|m IH].
  - simpl. unfold samples. rewrite Nat.Div0.div_0_l. simpl.
    by destruct s0.
  - rewrite seqZ_S, for_each_app, IH. cbn [mbind option_bind for_each].
    unfold traced_body. cbn [t_a t_b t_evolution].
    rewrite state_after_S by done. cbn [mbind option_bind].
    rewrite samples_S by done.
    destruct (state_after p s0 (S m)) as [na nb].
    unfold Py.mod_.
    replace (N_STEPS p =? 0)%Z with false by (symmetry; apply Z.eqb_neq; lia).
    cbn [mbind option_bind fst snd]. by rewrite Z.add_0_l.
Qed.

Lemma loop_body_erase p t i : loop_body p (erase t) i = erase <$> traced_body p t i.
Proof.
  unfold loop_body, traced_body. simpl.
  destruct (sess_run p (t_a t) (t_b t)) as [[na nb]|]; [|done]. simpl.
  destruct (Py.mod_ (i + 1) (N_STEPS p)) as [r|]; [|done]. simpl.
  unfold erase. simpl. destruct (r =? 0)%Z; [|done].
  by rewrite fmap_app.
Qed.

Lemma for_each_erase p l t :
  for_each (loop_body p) l (erase t) = erase <$> for_each (traced_body p) l t.
Proof.
  revert t. induction l as [|i l IH]; intros t; [done|].
  simpl. rewrite loop_body_erase.
  destruct (traced_body p t i) as [t'|]; [|done]. simpl. apply IH.
Qed.

(** Erasing the tags of the traced loop gives the loop of the notebook. *)
Lemma run_from_traced p s0 :
  run_from p s0 = fmap (M := list) snd <$> run_traced p s0.
Proof.
  unfold run_from, run_traced.
  change {| cur_a := s0.1; cur_b := s0.2; evolution := [s0] |}
    with (erase {| t_a := s0.1; t_b := s0.2; t_evolution := [(0%Z, s0)] |}).
  rewrite for_each_erase.
  by destruct (for_each (traced_body p) _ _).
Qed.

Lemma build_graph_ok p : (1 ≤ N_POINTS p)%Z → build_graph p = Some ().
Proof.
  intros HN. unfold build_graph, wrap_dim, Py.bounds, Py.norm_index. simpl.
  replace (N_POINTS p <? 0)%Z with false by (symmetry; apply Z.ltb_ge; lia).
  case_match; [|done]. apply Z.ltb_lt in H. lia.
Qed.

Lemma initialize_well_shaped p :
  (0 ≤ N_POINTS p)%Z → ∃ s0, initialize p = Some s0 ∧ well_shaped p s0.
Proof.
  intros HN. eexists. split; [by apply initialize_eq|].
  split; simpl; [apply has_shape2_const|apply has_shape2_seed, has_shape2_const].
Qed.

Lemma lookup_samples p s m (q : nat) :
  q ≤ m / Z.to_nat (N_STEPS p) →
  samples p s m !! q
  = Some (Z.of_nat (q * Z.to_nat (N_STEPS p)),
          state_after p s (q * Z.to_nat (N_STEPS p))).
Proof.
  intros Hq. unfold samples. rewrite list_lookup_fmap, lookup_seq_lt by lia.
  done.
Qed.

Lemma samples_tags p s m :
  (samples p s m).*1
  = (λ q, Z.of_nat (q * Z.to_nat (N_STEPS p)))
      <$> seq 0 (S (m / Z.to_nat (N_STEPS p))).
Proof. unfold samples. by rewrite <- list_fmap_compose. Qed.

(** C3. With at least one grid point, a non-negative [N_TIMES] and a
    positive [N_STEPS], the notebook runs to the end and [evolution] has
    [1 + N_TIMES / N_STEPS] entries: entry 0 is the starting state and
    entry [q], for [q] at least 1, is the state after [q * N_STEPS]
    evaluations of the graph.  In the tagged loop the entry [q] was appended
    by iteration [q * N_STEPS]; an iteration [i] of [1 .. N_TIMES] has an
    entry exactly when [i mod N_STEPS = 0], and no tag occurs twice. *)
Theorem evolution_sampling p :
  (1 ≤ N_POINTS p)%Z → (0 ≤ N_TIMES p)%Z → (1 ≤ N_STEPS p)%Z →
  ∃ s0 ev tr,
    initialize p = Some s0 ∧ run p = Some ev
    ∧ run_traced p s0 = Some tr ∧ ev = tr.*2
    ∧ length ev = Z.to_nat (1 + N_TIMES p / N_STEPS p)
    ∧ ev !! 0 = Some s0
    ∧ (∀ q : nat, 1 ≤ q → (Z.of_nat q ≤ N_TIMES p / N_STEPS p)%Z →
         ∃ s, steps p (q * Z.to_nat (N_STEPS p)) s0 = Some s
              ∧ ev !! q = Some s
              ∧ tr !! q = Some ((Z.of_nat q * N_STEPS p)%Z, s))
    ∧ (∀ i : Z, (1 ≤ i ≤ N_TIMES p)%Z →
         i ∈ tr.*1 ↔ (i mod N_STEPS p = 0)%Z)
    ∧ NoDup tr.*1.
Proof.
  intros HN HT HS.
  destruct (initialize_well_shaped p) as [s0 [Hinit Hs0]]; [lia|].
  set (m := Z.to_nat (N_TIMES p)). set (ns := Z.to_nat (N_STEPS p)).
  assert (run_traced p s0 = Some (samples p s0 m)) as Htr.
  { unfold run_traced, Py.range.
    replace (N_TIMES p) with (Z.of_nat m) by lia.
    by rewrite traced_prefix. }
  assert (Z.of_nat (m / ns) = N_TIMES p / N_STEPS p)%Z as Hdiv.
  { rewrite Nat2Z.inj_div. unfold m, ns. f_equal; lia. }
  exists s0, (samples p s0 m).*2, (samples p s0 m).
  split; [done|]. split.
  { unfold run. rewrite Hinit, build_graph_ok by done. simpl.
    by rewrite run_from_traced, Htr. }
  split; [done|]. split; [done|]. split.
  { rewrite length_fmap. unfold samples. rewrite length_fmap, length_seq.
    fold ns. lia. }
  split.
  { rewrite list_lookup_fmap, lookup_samples by lia. simpl.
    unfold state_after. simpl. done. }
  split.
  { intros q Hq1 Hq2. exists (state_after p s0 (q * ns)).
    split; [by apply steps_total|].
    rewrite list_lookup_fmap, lookup_samples by (fold ns; lia).
    fold ns. split; [done|]. do 2 f_equal. lia. }
  split.
  { intros i Hi. rewrite samples_tags. fold ns.
    rewrite list_elem_of_fmap. split.
    - intros [q [-> _]]. rewrite Nat2Z.inj_mul.
      replace (Z.of_nat ns) with (N_STEPS p) by lia. apply Z.mod_mul. lia.
    - intros Hmod. exists (Z.to_nat (i / N_STEPS p)). split.
      + pose proof (Z.div_mod i (N_STEPS p) ltac:(lia)) as Hdm.
        assert (0 ≤ i / N_STEPS p)%Z by (apply Z.div_pos; lia).
        unfold ns. nia.
      + apply list_elem_of_lookup. exists (Z.to_nat (i / N_STEPS p)).
        apply lookup_seq. split; [done|].
        assert (i / N_STEPS p ≤ N_TIMES p / N_STEPS p)%Z
          by (apply Z.div_le_mono; lia).
        assert (0 ≤ i / N_STEPS p)%Z by (apply Z.div_pos; lia). lia. }
  rewrite samples_tags. fold ns. apply NoDup_fmap_2; [|apply NoDup_seq].
  intros q1 q2 Hq. nia.
Qed.

End Driver.

(** ** Determinism of the run *)

Section Determinism.
Context {Ar : Arith}.
Implicit Types p : Params.
Implicit Types g : Kernel.
Implicit Types st : Loop.






End Determinism.

(** ** Diffusion of a constant field *)

Section ConstantField.
Context {Ar : Arith}.
Implicit Types p : Params.

Lemma tab_const {F} n (v : F) : tab n (λ _ _, v) = const_field n v.
Proof.
  unfold tab, const_field.
  assert (∀ {B} (y : B) m k, (λ _, y) <$> seq k m = replicate m y) as Hrep.
  { intros B y m. induction m as [|m IH]; intros k0; [done|].
    csimpl. by rewrite IH. }
  by rewrite !Hrep.
Qed.

Lemma torus_const n (c : f32) i j di dj :
  1 ≤ n → torus (const_field n c) n i j di dj = c.
Proof.
  intros Hn. unfold torus.
  rewrite lookup2_const; [done|apply Nat.mod_upper_bound; lia..].
Qed.

(** When the nine cells under the kernel agree, so do the two sums. *)
Lemma stencil_uniform s (a : tensor2 f32) n i j c :
  (∀ di dj, di < 3 → dj < 3 → torus a n i j di dj = c) →
  stencil s a n i j = stencil_const s c.
Proof.
  intros Hc. unfold stencil, stencil_const, taps. cbn [fmap list_fmap].
  rewrite !Hc by lia. done.
Qed.

Lemma diff_const s n (c : f32) :
  1 ≤ n →
  conv2d (wrap_pad (to4 (const_field n c)) 1) (scaled s)
  = Some (to4 (const_field n (stencil_const s c))).
Proof.
  intros Hn. rewrite (conv2d_padded n) by (done || apply has_shape2_const).
  rewrite <- (tab_const n (stencil_const s c)). do 2 f_equal.
  apply tab_ext. intros i j _ _.
  apply stencil_uniform. intros di dj _ _. by apply torus_const.
Qed.

End ConstantField.

Lemma exact_weights_cancel (s c : Qc) :
  stencil_const (Ar := Exact.arith) s c = 0%Qc.
Proof.
  unfold stencil_const, taps, weight.
  cbn [fmap list_fmap tap Nat.eqb andb orb].
  cbn [reduce conv_order pairwise lookup list_lookup default from_option id
       f_add f_mul cast py_lit f_zero Exact.arith].
  set (w1 := Q2Qc 0.05). set (w2 := Q2Qc 0.2). set (w0 := Q2Qc (-1)).
  assert (w1 + w2 + w1 + w2 + w0 + w2 + w1 + w2 + w1 = 0)%Qc as Hsum
    by (apply Qc_is_canon; reflexivity).
  match goal with |- @eq _ ?x ?y => change (@eq Qc x y) end.
  transitivity (Q2Qc 0 + c * s * (w1 + w2 + w1 + w2 + w0 + w2 + w1 + w2 + w1))%Qc;
    [ring|].
  rewrite Hsum. ring.
Qed.

(** ** Zeros in binary32 *)

Lemma forallb_weaken {A} (P Q : A → bool) (l : list A) :
  (∀ x, P x = true → Q x = true) →
  forallb P l = true → forallb Q l = true.
Proof.
  intros HPQ. rewrite !forallb_forall. intros HP x Hx. by apply HPQ, HP.
Qed.

Section Zeros.
#[local] Existing Instance B32.arith.

Lemma round_aux_sign s m e l :
  match binary_round_aux 24 128 s m e l with
  | S754_zero s' | S754_finite s' _ _ | S754_infinity s' => s' = s
  | S754_nan => True
  end.
Proof.
  unfold binary_round_aux.
  destruct (shr_fexp 24 128 m e l) as [mrs e'].
  destruct (shr_fexp 24 128 _ e' loc_Exact) as [mrs' e''].
  destruct (shr_m mrs'); [done| |done].
  by destruct (_ <=? _)%Z.
Qed.

Lemma flush_finite x :
  B32.is_finite x = true →
  B32.is_finite (B32.flush x) = true ∧ B32.sign (B32.flush x) = B32.sign x.
Proof.
  destruct x as [s|s| |s m e]; try done. intros _.
  unfold B32.flush. by destruct (B32.subnormal _).
Qed.

Lemma flush_sign x : B32.sign (B32.flush x) = B32.sign x.
Proof.
  destruct x as [s|s| |s m e]; try done.
  unfold B32.flush. by destruct (B32.subnormal _).
Qed.

Lemma flush_is_finite x : B32.is_finite (B32.flush x) = B32.is_finite x.
Proof.
  destruct x as [s|s| |s m e]; try done.
  unfold B32.flush. by destruct (B32.subnormal _).
Qed.

(** A finite product has finite factors and the sign of the exact
    product. *)
Lemma mul_sign x y :
  B32.is_finite (f_mul x y) = true →
  B32.is_finite x = true ∧ B32.is_finite y = true
  ∧ B32.sign (f_mul x y) = xorb (B32.sign x) (B32.sign y).
Proof.
  cbn [f_mul B32.arith B32.with_order]. unfold B32.flushed.
  rewrite flush_is_finite, flush_sign.
  rewrite <- (flush_is_finite x), <- (flush_is_finite y),
    <- (flush_sign x), <- (flush_sign y).
  destruct (B32.flush x) as [sx|sx| |sx mx ex],
    (B32.flush y) as [sy|sy| |sy my ey]; try done.
  cbn [SFmul B32.sign B32.is_finite]. intros Hfin.
  pose proof (round_aux_sign (xorb sx sy) (Z.pos (mx * my)) (ex + ey)
                loc_Exact) as Hs.
  destruct (binary_round_aux _ _ _ _ _ _); try done.
Qed.

(** Zero times a finite number is a zero. *)
Lemma mul_zero_l sz y :
  B32.is_finite y = true →
  f_mul (S754_zero sz) y = S754_zero (xorb sz (B32.sign y)).
Proof.
  intros Hy. cbn [f_mul B32.arith B32.with_order]. unfold B32.flushed.
  rewrite <- (flush_sign y). rewrite <- flush_is_finite in Hy.
  by destruct (B32.flush y).
Qed.

Lemma mul_zero_r x sz :
  B32.is_finite x = true →
  f_mul x (S754_zero sz) = S754_zero (xorb (B32.sign x) sz).
Proof.
  intros Hx. cbn [f_mul B32.arith B32.with_order]. unfold B32.flushed.
  rewrite <- (flush_sign x). rewrite <- flush_is_finite in Hx.
  by destruct (B32.flush x).
Qed.

(** The sum of two zeros is negative only when both are. *)
Lemma add_zeros s1 s2 :
  f_add (S754_zero s1) (S754_zero s2) = S754_zero (s1 && s2).
Proof. by destruct s1, s2. Qed.

Lemma sub_zeros s1 s2 :
  f_sub (S754_zero s1) (S754_zero s2) = S754_zero (s1 && negb s2).
Proof. by destruct s1, s2. Qed.

(** The sign of a finite scaled weight: that of the scale, inverted at the
    centre of the kernel. *)
Lemma weight_sign s di dj :
  di < 3 → dj < 3 →
  B32.is_finite (weight s di dj) = true →
  B32.sign (weight s di dj)
  = xorb (B32.sign (cast s)) ((di =? 1) && (dj =? 1)).
Proof.
  intros Hdi Hdj Hfin. unfold weight in *.
  destruct (mul_sign _ _ Hfin) as (_ & _ & ->). f_equal.
  destruct di as [|[|[|di]]], dj as [|[|[|dj]]]; try lia;
    vm_compute; reflexivity.
Qed.

(** The diffusion term of a zero of either sign, when the scaled kernel is
    finite: the nine products are zeros, eight of one sign and the centre
    of the other, and their sum is [+0.0]. *)
Lemma stencil_const_zero s sz :
  forallb (λ '(di, dj), B32.is_finite (weight s di dj)) taps = true →
  stencil_const s (S754_zero sz) = S754_zero false.
Proof.
  intros Hw. unfold taps in Hw. cbn [forallb] in Hw.
  repeat (apply andb_true_iff in Hw as [? Hw]).
  unfold stencil_const, taps. cbn [fmap list_fmap].
  rewrite !mul_zero_l, !weight_sign by (done || lia).
  cbn [Nat.eqb andb].
  cbn [reduce conv_order B32.arith B32.with_order pairwise lookup
       list_lookup default from_option id].
  rewrite !add_zeros. by destruct sz, (B32.sign (cast s)).
Qed.

End Zeros.

(** C6, as the notebook has it.  The diffusion term of a constant field is
    constant: every cell is the same sum of the nine products of the value
    and the scaled kernel, in the order of the convolution.  In binary32
    the sum is [+0.0] for the field of zeros, of either sign, as long as
    the scaled kernels are finite; for other values the rounded weights
    need not cancel. *)
Theorem diffuse_const (n : nat) :
  1 ≤ n →
  (∀ (Ar : Arith) (p : Params) (c : f32),
      Z.to_nat (N_POINTS p) = n →
      ∃ ia,
        input_a p (const_field n c) = Some ia
        ∧ input_b p (const_field n c) = Some ia
        ∧ diff_a p ia
          = Some (to4 (const_field n
                         (stencil_const (py_mul (DA p) (TIME_STEP p)) c)))
        ∧ diff_b p ia
          = Some (to4 (const_field n
                         (stencil_const (py_mul (DB p) (TIME_STEP p)) c))))
  ∧ (∀ (p : Params (Ar := B32.arith)) (negative : bool),
        Z.to_nat (N_POINTS p) = n →
        forallb (λ '(di, dj),
                   B32.is_finite (weight (py_mul (DA p) (TIME_STEP p)) di dj)
                   && B32.is_finite
                        (weight (py_mul (DB p) (TIME_STEP p)) di dj))
          taps = true →
        ∃ ia,
          input_a p (const_field n (S754_zero negative)) = Some ia
          ∧ input_b p (const_field n (S754_zero negative)) = Some ia
          ∧ diff_a p ia = Some (to4 (const_field n B32.zero))
          ∧ diff_b p ia = Some (to4 (const_field n B32.zero))).
Proof.
  intros Hn.
  assert (∀ (Ar : Arith) (p : Params) (c : f32),
      Z.to_nat (N_POINTS p) = n →
      ∃ ia,
        input_a p (const_field n c) = Some ia
        ∧ input_b p (const_field n c) = Some ia
        ∧ diff_a p ia
          = Some (to4 (const_field n
                         (stencil_const (py_mul (DA p) (TIME_STEP p)) c)))
        ∧ diff_b p ia
          = Some (to4 (const_field n
                         (stencil_const (py_mul (DB p) (TIME_STEP p)) c))))
    as Hgen.
  { intros Ar p c HN. exists (to4 (const_field n c)).
    unfold input_a, input_b. rewrite HN.
    rewrite reshape4_field by apply has_shape2_const.
    split; [done|]. split; [done|].
    unfold diff_a, diff_b. rewrite kernel_a_eq, kernel_b_eq.
    cbn [mbind option_bind]. by rewrite !diff_const. }
  split; [exact Hgen|]. intros p negative HN Hw.
  destruct (Hgen B32.arith p (S754_zero negative) HN)
    as [ia [Hia [Hib [Ha Hb]]]].
  rewrite stencil_const_zero in Ha, Hb.
  - by exists ia.
  - eapply forallb_weaken; [|exact Hw].
    by intros [di dj] [_ ?]%andb_true_iff.
  - eapply forallb_weaken; [|exact Hw].
    by intros [di dj] [? _]%andb_true_iff.
Qed.

(** ** Cells away from the seed patch *)

Section FarCells.
Context {Ar : Arith}.
Implicit Types p : Params.

(** Around a cell none of whose nine neighbours on the torus lies in the
    seed patch, the starting [b] is zero. *)
Lemma far_cell_unseeded p i j di dj :
  let n := Z.to_nat (N_POINTS p) in
  1 ≤ n → (0 ≤ SEED_START p)%Z → (0 ≤ SEED_SIZE p)%Z → i < n → j < n →
  in_seed p ((i + di + n - 1) mod n)
  && in_seed p ((j + dj + n - 1) mod n) = false →
  torus (seed p (const_field n f_zero)) n i j di dj = f_zero.
Proof.
  intros n Hn HS HZ Hi Hj Hfar. unfold torus.
  rewrite (lookup2_seed p n _ _ _ f_zero);
    [by rewrite Hfar|done|done|apply has_shape2_const
    |apply Nat.mod_upper_bound; lia|apply Nat.mod_upper_bound; lia|].
  apply lookup2_const; apply Nat.mod_upper_bound; lia.
Qed.

(** A cell none of whose nine neighbours on the torus lies in the seed
    patch sees [a = 1.0] and [b = 0.0] all around in the starting state; its
    next value is the closed expression of these two constants. *)
Lemma far_cell_step p i j :
  let n := Z.to_nat (N_POINTS p) in
  1 ≤ n → (0 ≤ SEED_START p)%Z → (0 ≤ SEED_SIZE p)%Z → i < n → j < n →
  (∀ di dj, di < 3 → dj < 3 →
     in_seed p ((i + di + n - 1) mod n)
     && in_seed p ((j + dj + n - 1) mod n) = false) →
  ∃ s0 s1,
    initialize p = Some s0
    ∧ sess_run p s0.1 s0.2 = Some s1
    ∧ lookup2 s1.1 i j
      = Some (f_add (f_add f_one
                       (stencil_const (py_mul (DA p) (TIME_STEP p)) f_one))
                    (react_a_cell p f_one f_zero))
    ∧ lookup2 s1.2 i j
      = Some (f_add (f_add f_zero
                       (stencil_const (py_mul (DB p) (TIME_STEP p)) f_zero))
                    (react_b_cell p f_one f_zero)).
Proof.
  intros n Hn HS HZ Hi Hj Hfar.
  assert (∀ di dj, di < 3 → dj < 3 →
            torus (seed p (const_field n f_zero)) n i j di dj = f_zero) as Hb.
  { intros di dj Hdi Hdj. apply far_cell_unseeded; auto. }
  exists (const_field n f_one, seed p (const_field n f_zero)).
  eexists. split; [apply initialize_eq; lia|].
  split.
  { apply (sess_run_cells n p); [done|done|apply has_shape2_const|].
    apply has_shape2_seed, has_shape2_const. }
  cbn [fst snd]. rewrite !lookup2_tab by done.
  unfold next_a_cell, next_b_cell.
  rewrite (stencil_uniform _ (const_field n f_one) n i j f_one)
    by (intros; by apply torus_const).
  rewrite (stencil_uniform _ (seed p (const_field n f_zero)) n i j f_zero)
    by done.
  rewrite torus_const, Hb by (done || lia). done.
Qed.

End FarCells.

(** ** The notebook's parameters, in binary32 *)

Section Notebook.
#[local] Existing Instance B32.arith.

(** Around a cell outside rows and columns 99 .. 105 no neighbour on the
    torus lies in the seed patch. *)
Lemma far_from_seed i j di dj :
  i < 400 → j < 400 → (i < 99 ∨ 105 < i ∨ j < 99 ∨ 105 < j) →
  di < 3 → dj < 3 →
  in_seed B32.default_params ((i + di + 400 - 1) mod 400)
  && in_seed B32.default_params ((j + dj + 400 - 1) mod 400) = false.
Proof.
  intros Hi Hj Hfar Hdi Hdj. unfold in_seed.
  cbn [SEED_START SEED_SIZE B32.default_params].
  pose proof (Nat.div_mod_eq (i + di + 400 - 1) 400).
  pose proof (Nat.mod_upper_bound (i + di + 400 - 1) 400 ltac:(lia)).
  pose proof (Nat.div_mod_eq (j + dj + 400 - 1) 400).
  pose proof (Nat.mod_upper_bound (j + dj + 400 - 1) 400 ltac:(lia)).
  apply not_true_is_false.
  rewrite !andb_true_iff, !Z.leb_le, !Z.ltb_lt. lia.
Qed.

(** C7. With the parameters of the notebook, after one evaluation of the
    graph on the starting state every cell outside rows and columns
    99 .. 105 (the seed patch grown by one cell) holds exactly 1.0 in [a]
    and exactly 0.0 in [b].  The diffusion term of [a] at such a cell is
    not zero: summed in the order of the convolution the nine weights
    leave [-1.5 * 2^-27], which is lost when it is added to 1.0; that of
    [b] is [+0.0]. *)
Theorem single_step_far_from_seed (i j : nat) :
  i < 400 → j < 400 → (i < 99 ∨ 105 < i ∨ j < 99 ∨ 105 < j) →
  ∃ s0 s1 da db,
    initialize B32.default_params = Some s0
    ∧ sess_run B32.default_params s0.1 s0.2 = Some s1
    ∧ diff_a B32.default_params (to4 s0.1) = Some da
    ∧ diff_b B32.default_params (to4 s0.2) = Some db
    ∧ lookup4 da 0 i j 0 = Some (S754_finite true 12582912 (-50))
    ∧ lookup4 db 0 i j 0 = Some (S754_zero false)
    ∧ lookup2 s1.1 i j = Some (B32.to_f32 (B32.lit 1.0))
    ∧ lookup2 s1.2 i j = Some (B32.to_f32 (B32.lit 0.0)).
Proof.
  intros Hi Hj Hfar.
  assert (Z.to_nat (N_POINTS B32.default_params) = 400) as HN by reflexivity.
  destruct (far_cell_step B32.default_params i j)
    as [s0 [s1 [Hinit [Hrun [Ha Hb]]]]];
    [lia|done|done|lia|lia| |].
  { intros di dj Hdi Hdj. by apply far_from_seed. }
  pose proof (initialize_eq B32.default_params ltac:(done)) as Hinit'.
  rewrite HN in Hinit'.
  assert (s0 = (const_field 400 f_one,
                seed B32.default_params (const_field 400 f_zero)))
    as -> by congruence.
  eexists _, s1, _, _. split; [done|]. split; [done|]. cbn [fst snd].
  split; [apply (diff_a_cells 400); [lia|apply has_shape2_const]|].
  split; [apply (diff_b_cells 400);
          [lia|apply has_shape2_seed, has_shape2_const]|].
  rewrite !lookup4_to4, !lookup2_tab by done.
  rewrite (stencil_uniform _ (const_field 400 f_one) 400 i j f_one)
    by (intros; apply torus_const; lia).
  rewrite (stencil_uniform _ (seed B32.default_params _) 400 i j f_zero).
  2:{ intros di dj Hdi Hdj.
      apply (far_cell_unseeded B32.default_params i j di dj);
        [lia|done|done|lia|lia|by apply far_from_seed]. }
  rewrite Ha, Hb. repeat split; vm_compute; reflexivity.
Qed.

(** In binary32 the nine weights do not cancel: the diffusion term of the
    field that is 1.0 everywhere is [-1.5 * 2^-27] in every cell, and that
    of an infinite field is not a number. *)
Lemma diffuse_const_b32 :
  (ia ← input_a B32.tiny_params (const_field 4 B32.one);
   diff_a B32.tiny_params ia)
  = Some (to4 (const_field 4 (S754_finite true 12582912 (-50))))
  ∧ B32.eqb (S754_finite true 12582912 (-50)) B32.zero = false
  ∧ (ia ← input_a B32.tiny_params (const_field 4 B32.pos_inf);
     diff_a B32.tiny_params ia)
    = Some (to4 (const_field 4 S754_nan))
  ∧ B32.eqb S754_nan B32.zero = false.
Proof. repeat split; vm_compute; reflexivity. Qed.

(** The rounded sum depends on the order in which the nine products are
    added.  For the field 1.0 and a scale of 1.0 the order of the CPU
    kernel leaves [-1.5 * 2^-27] and one accumulator in row-major order
    leaves [2^-28]; added to 1.0 both round to 1.0.  One accumulator that
    starts with the centre leaves [-1.25 * 2^-25], which added to 1.0
    rounds to the float below 1.0. *)
Lemma accumulation_order_matters :
  let residue o :=
    stencil_const (Ar := B32.with_order o) (B32.lit 1.0) B32.one in
  residue pairwise = S754_finite true 12582912 (-50)
  ∧ residue row_major = S754_finite false 8388608 (-51)
  ∧ residue centre_first = S754_finite true 10485760 (-48)
  ∧ f_add B32.one (residue pairwise) = B32.one
  ∧ f_add B32.one (residue row_major) = B32.one
  ∧ f_add B32.one (residue centre_first) = S754_finite false 16777215 (-24).
Proof. repeat split; vm_compute; reflexivity. Qed.

(** Products below [2^-126] are flushed to zero.  With [b = 2^-125]
    everywhere, of the diffusion of [b] only the centre product [-b/2]
    survives and the removal [(k + f) * b] is lost: [b] is halved, where
    arithmetic with subnormal numbers would leave about [0.883 * b]. *)
Lemma subnormal_products_flushed :
  sess_run B32.tiny_params (const_field 4 B32.one)
    (const_field 4 (S754_finite false 8388608 (-148)))
  = Some (const_field 4 B32.one,
          const_field 4 (S754_finite false 8388608 (-149))).
Proof. vm_compute. reflexivity. Qed.

(** What the interpreter holds does matter to a cell on its own: cell 7
    executed a second time goes on from the last state and appends to the
    record that is there, which then has five entries instead of three. *)
Lemma simulate_twice_appends :
  (g ← notebook B32.tiny_params fresh; length <$> g_evolution g) = Some 3
  ∧ (g ← notebook B32.tiny_params fresh;
     g' ← cell_simulate g; length <$> g_evolution g') = Some 5.
Proof. split; vm_compute; reflexivity. Qed.

(** The record does depend on the order in which the convolution sums:
    two orders give different last bits from the first step on. *)
Lemma run_depends_on_order :
  B32.tiny_params_in pairwise = B32.tiny_params
  ∧ run (B32.tiny_params_in row_major) ≠ run (B32.tiny_params_in pairwise).
Proof. split; [reflexivity|]. vm_compute. discriminate. Qed.

(** A seed patch that does not fit the grid is accepted: the part of it
    inside the grid is set. *)
Lemma initialize_oversized_seed :
  let q : Params :=
    {| N_POINTS := 4; SEED_START := 3; SEED_SIZE := 2; N_TIMES := 4;
       TIME_STEP := B32.lit 1.0; N_STEPS := 2; DA := B32.lit 1.0;
       DB := B32.lit 0.5; f := B32.lit 0.055; k := B32.lit 0.062 |} in
  let one := B32.one in
  let zero := B32.zero in
  (SEED_START q + SEED_SIZE q > N_POINTS q)%Z
  ∧ initialize q
    = Some ([[one; one; one; one]; [one; one; one; one];
             [one; one; one; one]; [one; one; one; one]],
            [[zero; zero; zero; zero]; [zero; zero; zero; zero];
             [zero; zero; zero; zero]; [zero; zero; zero; one]]).
Proof. split; [done|]. vm_compute. reflexivity. Qed.

End Notebook.

(** ** The properties on a small grid *)

Section Instances.
#[local] Existing Instance B32.arith.

Lemma wrap_pad_halo_witness :
  1 ≤ 2 ∧ has_shape2 2 2 [[1; 2]; [3; 4]] = true
  ∧ let padded := wrap_pad (to4 [[1; 2]; [3; 4]]) 1 in
    (∀ h, 1 ≤ h ≤ 2 →
       (∃ v, lookup2 [[1; 2]; [3; 4]] (2 - 1) (h - 1) = Some v
             ∧ lookup4 padded 0 0 h 0 = Some v)
       ∧ (∃ v, lookup2 [[1; 2]; [3; 4]] 0 (h - 1) = Some v
               ∧ lookup4 padded 0 (2 + 1) h 0 = Some v))
    ∧ (∀ r, 1 ≤ r ≤ 2 →
         (∃ v, lookup2 [[1; 2]; [3; 4]] (r - 1) (2 - 1) = Some v
               ∧ lookup4 padded 0 r 0 0 = Some v)
         ∧ (∃ v, lookup2 [[1; 2]; [3; 4]] (r - 1) 0 = Some v
                 ∧ lookup4 padded 0 r (2 + 1) 0 = Some v))
    ∧ (∃ v, lookup2 [[1; 2]; [3; 4]] (2 - 1) (2 - 1) = Some v
            ∧ lookup4 padded 0 0 0 0 = Some v)
    ∧ (∃ v, lookup2 [[1; 2]; [3; 4]] (2 - 1) 0 = Some v
            ∧ lookup4 padded 0 0 (2 + 1) 0 = Some v)
    ∧ (∃ v, lookup2 [[1; 2]; [3; 4]] 0 (2 - 1) = Some v
            ∧ lookup4 padded 0 (2 + 1) 0 0 = Some v)
    ∧ (∃ v, lookup2 [[1; 2]; [3; 4]] 0 0 = Some v
            ∧ lookup4 padded 0 (2 + 1) (2 + 1) 0 = Some v).
Proof.
  split; [lia|]. split; [reflexivity|].
  apply (wrap_pad_halo 2 [[1; 2]; [3; 4]]); [lia|reflexivity].
Defined.

Lemma wrap_pad_interior_witness :
  has_shape2 2 2 [[1; 2]; [3; 4]] = true ∧ 1 < 2 ∧ 0 < 2
  ∧ ∃ v, lookup2 [[1; 2]; [3; 4]] 1 0 = Some v
         ∧ lookup4 (wrap_pad (to4 [[1; 2]; [3; 4]]) 1) 0 (1 + 1) (0 + 1) 0
           = Some v.
Proof.
  split; [reflexivity|]. split; [lia|]. split; [lia|].
  apply (wrap_pad_interior 2 [[1; 2]; [3; 4]] 1 0); [reflexivity|lia|lia].
Defined.

Lemma sess_run_shape_witness :
  1 ≤ 4 ∧ has_shape2 4 4 B32.tiny_a = true ∧ has_shape2 4 4 B32.tiny_b = true
  ∧ (∃ new_a new_b,
        sess_run B32.tiny_params B32.tiny_a B32.tiny_b = Some (new_a, new_b)
        ∧ has_shape2 4 4 new_a = true ∧ has_shape2 4 4 new_b = true)
  ∧ (∃ ia, input_a B32.tiny_params B32.tiny_a = Some ia
           ∧ has_shape4 1 4 4 1 ia = true
           ∧ has_shape4 1 (4 + 2) (4 + 2) 1 (wrap_pad ia 1) = true
           ∧ ∃ d, diff_a B32.tiny_params ia = Some d
                  ∧ has_shape4 1 4 4 1 d = true)
  ∧ (∃ ib, input_b B32.tiny_params B32.tiny_b = Some ib
           ∧ has_shape4 1 4 4 1 ib = true
           ∧ has_shape4 1 (4 + 2) (4 + 2) 1 (wrap_pad ib 1) = true
           ∧ ∃ d, diff_b B32.tiny_params ib = Some d
                  ∧ has_shape4 1 4 4 1 d = true).
Proof.
  split; [lia|]. split; [reflexivity|]. split; [reflexivity|].
  apply (sess_run_shape B32.tiny_params B32.tiny_a B32.tiny_b);
    [simpl; lia|reflexivity|reflexivity].
Defined.

Lemma sess_run_euler_witness :
  1 ≤ 4 ∧ has_shape2 4 4 B32.tiny_a = true ∧ has_shape2 4 4 B32.tiny_b = true
  ∧ ∃ ia ib da db new_a new_b,
      input_a B32.tiny_params B32.tiny_a = Some ia
      ∧ input_b B32.tiny_params B32.tiny_b = Some ib
      ∧ diff_a B32.tiny_params ia = Some da
      ∧ diff_b B32.tiny_params ib = Some db
      ∧ sess_run B32.tiny_params B32.tiny_a B32.tiny_b = Some (new_a, new_b)
      ∧ ∀ i j, i < 4 → j < 4 →
          ∃ x y dx dy rx ry,
            lookup2 B32.tiny_a i j = Some x ∧ lookup2 B32.tiny_b i j = Some y
            ∧ lookup4 da 0 i j 0 = Some dx ∧ lookup4 db 0 i j 0 = Some dy
            ∧ dx = stencil (py_mul (DA B32.tiny_params)
                                   (TIME_STEP B32.tiny_params)) B32.tiny_a 4 i j
            ∧ dy = stencil (py_mul (DB B32.tiny_params)
                                   (TIME_STEP B32.tiny_params)) B32.tiny_b 4 i j
            ∧ lookup4 (react_a B32.tiny_params ia ib) 0 i j 0 = Some rx
            ∧ lookup4 (react_b B32.tiny_params ia ib) 0 i j 0 = Some ry
            ∧ lookup2 new_a i j = Some (f_add (f_add x dx) rx)
            ∧ lookup2 new_b i j = Some (f_add (f_add y dy) ry).
Proof.
  split; [lia|]. split; [reflexivity|]. split; [reflexivity|].
  apply (sess_run_euler B32.tiny_params B32.tiny_a B32.tiny_b);
    [simpl; lia|reflexivity|reflexivity].
Defined.

Lemma react_pointwise_witness :
  has_shape2 4 4 B32.tiny_a = true ∧ has_shape2 4 4 B32.tiny_b = true
  ∧ 1 < 4 ∧ 2 < 4
  ∧ ∃ ia ib x y,
      input_a B32.tiny_params B32.tiny_a = Some ia
      ∧ input_b B32.tiny_params B32.tiny_b = Some ib
      ∧ lookup2 B32.tiny_a 1 2 = Some x ∧ lookup2 B32.tiny_b 1 2 = Some y
      ∧ lookup4 (react_a B32.tiny_params ia ib) 0 1 2 0
        = Some (f_mul (cast (TIME_STEP B32.tiny_params))
                  (f_add (f_mul (f_mul (f_neg x) y) y)
                         (f_mul (cast (f B32.tiny_params))
                                (f_sub (cast (py_lit 1)) x))))
      ∧ lookup4 (react_b B32.tiny_params ia ib) 0 1 2 0
        = Some (f_mul (cast (TIME_STEP B32.tiny_params))
                  (f_sub (f_mul (f_mul x y) y)
                         (f_mul (cast (py_add (k B32.tiny_params)
                                              (f B32.tiny_params))) y))).
Proof.
  split; [reflexivity|]. split; [reflexivity|]. split; [lia|]. split; [lia|].
  apply (react_pointwise B32.tiny_params B32.tiny_a B32.tiny_b 1 2);
    [reflexivity|reflexivity|simpl; lia|simpl; lia].
Defined.

Lemma initialize_seeded_witness :
  (0 ≤ N_POINTS B32.tiny_params)%Z ∧ (0 ≤ SEED_START B32.tiny_params)%Z
  ∧ (0 ≤ SEED_SIZE B32.tiny_params)%Z
  ∧ ∃ a b,
      initialize B32.tiny_params = Some (a, b)
      ∧ has_shape2 4 4 a = true ∧ has_shape2 4 4 b = true
      ∧ ∀ i j, i < 4 → j < 4 →
          lookup2 a i j = Some (cast (py_lit 1))
          ∧ lookup2 b i j
            = Some (if in_seed B32.tiny_params i && in_seed B32.tiny_params j
                    then cast (py_lit 1) else cast (py_lit 0)).
Proof.
  split; [simpl; lia|]. split; [simpl; lia|]. split; [simpl; lia|].
  apply (initialize_seeded B32.tiny_params); simpl; lia.
Defined.

Lemma evolution_sampling_witness :
  (1 ≤ N_POINTS B32.tiny_params)%Z ∧ (0 ≤ N_TIMES B32.tiny_params)%Z
  ∧ (1 ≤ N_STEPS B32.tiny_params)%Z
  ∧ ∃ s0 ev tr,
      initialize B32.tiny_params = Some s0 ∧ run B32.tiny_params = Some ev
      ∧ run_traced B32.tiny_params s0 = Some tr ∧ ev = tr.*2
      ∧ length ev = Z.to_nat (1 + 4 / 2)
      ∧ ev !! 0 = Some s0
      ∧ (∀ q : nat, 1 ≤ q → (Z.of_nat q ≤ 4 / 2)%Z →
           ∃ s, steps B32.tiny_params (q * Z.to_nat 2) s0 = Some s
                ∧ ev !! q = Some s
                ∧ tr !! q = Some ((Z.of_nat q * 2)%Z, s))
      ∧ (∀ i : Z, (1 ≤ i ≤ 4)%Z → i ∈ tr.*1 ↔ (i mod 2 = 0)%Z)
      ∧ NoDup tr.*1.
Proof.
  split; [simpl; lia|]. split; [simpl; lia|]. split; [simpl; lia|].
  apply (evolution_sampling B32.tiny_params); simpl; lia.
Defined.

Lemma diffuse_const_witness :
  1 ≤ 4 ∧ Z.to_nat (N_POINTS B32.tiny_params) = 4
  ∧ forallb (λ '(di, dj),
               B32.is_finite
                 (weight (py_mul (DA B32.tiny_params)
                            (TIME_STEP B32.tiny_params)) di dj)
               && B32.is_finite
                    (weight (py_mul (DB B32.tiny_params)
                               (TIME_STEP B32.tiny_params)) di dj))
      taps = true
  ∧ ∃ ia,
      input_a B32.tiny_params (const_field 4 (S754_zero true)) = Some ia
      ∧ input_b B32.tiny_params (const_field 4 (S754_zero true)) = Some ia
      ∧ diff_a B32.tiny_params ia = Some (to4 (const_field 4 B32.zero))
      ∧ diff_b B32.tiny_params ia = Some (to4 (const_field 4 B32.zero)).
Proof.
  split; [lia|]. split; [reflexivity|]. split; [vm_compute; reflexivity|].
  apply (proj2 (diffuse_const 4 ltac:(lia)) B32.tiny_params true);
    [reflexivity|vm_compute; reflexivity].
Defined.

Lemma single_step_far_from_seed_witness :
  0 < 400 ∧ 399 < 400 ∧ (0 < 99 ∨ 105 < 0 ∨ 399 < 99 ∨ 105 < 399)
  ∧ ∃ s0 s1 da db,
      initialize B32.default_params = Some s0
      ∧ sess_run B32.default_params s0.1 s0.2 = Some s1
      ∧ diff_a B32.default_params (to4 s0.1) = Some da
      ∧ diff_b B32.default_params (to4 s0.2) = Some db
      ∧ lookup4 da 0 0 399 0 = Some (S754_finite true 12582912 (-50))
      ∧ lookup4 db 0 0 399 0 = Some (S754_zero false)
      ∧ lookup2 s1.1 0 399 = Some (B32.to_f32 (B32.lit 1.0))
      ∧ lookup2 s1.2 0 399 = Some (B32.to_f32 (B32.lit 0.0)).
Proof.
  split; [lia|]. split; [lia|]. split; [lia|].
  apply (single_step_far_from_seed 0 399); lia.
Defined.


End Instances.

(** * Further properties of the code *)

(** ** [wrap_pad] at any width *)

Section WrapWidth.
Context {F : Type}.

Lemma slice_tail {A} (l : list A) (size : Z) :
  (0 ≤ size)%Z →
  Py.slice (Some (- size)%Z) None l
  = drop (length l - halo_before (length l) size) l.
Proof.
  intros Hs. unfold Py.slice, Py.bounds, Py.norm_index, halo_before. simpl.
  destruct (size =? 0)%Z eqn:Hz.
  - apply Z.eqb_eq in Hz. subst size. simpl.
    replace (length l - length l) with 0 by lia.
    match goal with
    | |- take ?n (drop ?lo _) = _ =>
        replace lo with 0 by lia; replace n with (length l) by lia
    end.
    rewrite drop_0. by apply take_ge.
  - apply Z.eqb_neq in Hz.
    replace (- size <? 0)%Z with true by (symmetry; apply Z.ltb_lt; lia).
    match goal with
    | |- take ?n (drop ?lo _) = _ =>
        replace lo with (length l - Z.to_nat size `min` length l) by lia
    end.
    apply take_ge. rewrite length_drop. lia.
Qed.

Lemma slice_head {A} (l : list A) (size : Z) :
  (0 ≤ size)%Z →
  Py.slice (Some 0%Z) (Some size) l = take (halo_after (length l) size) l.
Proof.
  intros Hs. unfold Py.slice, Py.bounds, Py.norm_index, halo_after. simpl.
  replace (size <? 0)%Z with false by (symmetry; apply Z.ltb_ge; lia).
  match goal with
  | |- take ?n (drop ?lo _) = _ =>
      replace lo with 0 by lia;
      replace n with (Z.to_nat size `min` length l) by lia
  end.
  by rewrite drop_0.
Qed.

Lemma halo_before_le n size : halo_before n size ≤ n.
Proof. unfold halo_before. case_match; lia. Qed.

Lemma halo_after_le n size : halo_after n size ≤ n.
Proof. unfold halo_after. lia. Qed.

Lemma length_wrap_axis_any {A} (l : list A) (size : Z) :
  (0 ≤ size)%Z →
  length (wrap_axis size l)
  = halo_before (length l) size + length l + halo_after (length l) size.
Proof.
  intros Hs. unfold wrap_axis. rewrite slice_tail, slice_head by done.
  pose proof (halo_before_le (length l) size).
  pose proof (halo_after_le (length l) size).
  rewrite !length_app, length_drop, length_take. lia.
Qed.

Lemma lookup_wrap_axis_any {A} (l : list A) (size : Z) k :
  (0 ≤ size)%Z → 1 ≤ length l →
  k < halo_before (length l) size + length l + halo_after (length l) size →
  wrap_axis size l !! k
  = l !! ((k + length l - halo_before (length l) size) mod length l).
Proof.
  intros Hs Hn Hk. unfold wrap_axis. rewrite slice_tail, slice_head by done.
  pose proof (halo_before_le (length l) size) as Hpre.
  pose proof (halo_after_le (length l) size) as Hpost.
  set (pre := halo_before (length l) size) in *.
  set (post := halo_after (length l) size) in *.
  destruct (decide (k < pre)) as [Hk1|Hk1].
  { rewrite lookup_app_l by (rewrite length_drop; lia).
    rewrite lookup_drop. f_equal. rewrite Nat.mod_small; lia. }
  rewrite lookup_app_r by (rewrite length_drop; lia).
  rewrite length_drop.
  replace (k - (length l - (length l - pre))) with (k - pre) by lia.
  destruct (decide (k < pre + length l)) as [Hk2|Hk2].
  { rewrite lookup_app_l by lia. f_equal.
    replace (k + length l - pre) with (k - pre + 1 * length l) by lia.
    rewrite Nat.Div0.mod_add, Nat.mod_small; lia. }
  rewrite lookup_app_r by lia.
  rewrite lookup_take_lt by lia. f_equal.
  replace (k + length l - pre)
    with (k - pre - length l + 2 * length l) by lia.
  rewrite Nat.Div0.mod_add, Nat.mod_small; lia.
Qed.

(** The padded cell [(r, c)] at any non-negative width. *)
Lemma lookup4_wrap_pad_any n (a : tensor2 F) (size : Z) r c :
  (0 ≤ size)%Z → 1 ≤ n → has_shape2 n n a = true →
  r < halo_before n size + n + halo_after n size →
  c < halo_before n size + n + halo_after n size →
  lookup4 (wrap_pad (to4 a) size) 0 r c 0
  = lookup2 a ((r + n - halo_before n size) mod n)
              ((c + n - halo_before n size) mod n).
Proof.
  intros Hs Hn [Hlen Hrows]%has_shape2_spec Hr Hc.
  rewrite wrap_pad_fmap. unfold to4, lookup4, lookup2. simpl.
  rewrite lookup_wrap_axis_any by (rewrite ?length_fmap, ?Hlen; done).
  rewrite !length_fmap, Hlen, !list_lookup_fmap.
  destruct (lookup_lt_is_Some_2 a ((r + n - halo_before n size) mod n))
    as [row Hrow].
  { rewrite Hlen. apply Nat.mod_upper_bound. lia. }
  rewrite Hrow. simpl.
  assert (length row = n) as Hlr.
  { rewrite Forall_forall in Hrows. apply Hrows.
    by eapply list_elem_of_lookup_2. }
  rewrite lookup_wrap_axis_any by (rewrite ?length_fmap, ?Hlr; done).
  rewrite length_fmap, Hlr, list_lookup_fmap.
  destruct (row !! ((c + n - halo_before n size) mod n)); done.
Qed.

Lemma shape_wrap_pad_any n (a : tensor2 F) (size : Z) :
  (0 ≤ size)%Z → 1 ≤ n → has_shape2 n n a = true →
  let m := halo_before n size + n + halo_after n size in
  has_shape4 1 m m 1 (wrap_pad (to4 a) size) = true.
Proof.
  intros Hs Hn [Hlen Hrows]%has_shape2_spec m.
  rewrite wrap_pad_fmap. unfold has_shape4, to4. simpl.
  rewrite andb_true_r.
  rewrite length_wrap_axis_any, !length_fmap, Hlen by done.
  fold m. rewrite Nat.eqb_refl. simpl.
  apply forallb_forall. intros row Hin%list_elem_of_In.
  unfold wrap_axis in Hin. rewrite !elem_of_app in Hin.
  assert (row ∈ wrap_axis size
                  <$> (fmap (M := list) (λ v : F, [v]) <$> a)) as Hrow.
  { destruct Hin as [Hin|[Hin|Hin]]; [|done|].
    - rewrite slice_tail in Hin by done.
      by eapply subseteq_drop.
    - rewrite slice_head in Hin by done.
      by eapply subseteq_take. }
  apply list_elem_of_fmap in Hrow as [row1 [-> Hrow1]].
  apply list_elem_of_fmap in Hrow1 as [row0 [-> Hrow0]].
  assert (length row0 = n) as Hlr.
  { rewrite Forall_forall in Hrows. by apply Hrows. }
  rewrite length_wrap_axis_any, length_fmap, Hlr by done.
  fold m. rewrite Nat.eqb_refl. simpl.
  apply forallb_forall. intros px Hpx%list_elem_of_In.
  assert (px ∈ (λ v : F, [v]) <$> row0) as Hpx0.
  { unfold wrap_axis in Hpx. rewrite !elem_of_app in Hpx.
    destruct Hpx as [Hpx|[Hpx|Hpx]]; [|done|].
    - rewrite slice_tail in Hpx by done. by eapply subseteq_drop.
    - rewrite slice_head in Hpx by done. by eapply subseteq_take. }
  by apply list_elem_of_fmap in Hpx0 as [v [-> _]].
Qed.

Lemma wrap_pad_cells n (field : tensor2 F) (size : Z) pre post :
  (0 ≤ size)%Z → 1 ≤ n → has_shape2 n n field = true →
  halo_before n size = pre → halo_after n size = post →
  has_shape4 1 (pre + n + post) (pre + n + post) 1
    (wrap_pad (to4 field) size) = true
  ∧ ∀ r c, r < pre + n + post → c < pre + n + post →
      ∃ v, lookup2 field ((r + n - pre) mod n) ((c + n - pre) mod n) = Some v
           ∧ lookup4 (wrap_pad (to4 field) size) 0 r c 0 = Some v.
Proof.
  intros Hs Hn Hshape <- <-. split; [by apply shape_wrap_pad_any|].
  intros r c Hr Hc.
  rewrite (lookup4_wrap_pad_any n) by done.
  destruct (lookup2_is_Some n field
              ((r + n - halo_before n size) mod n)
              ((c + n - halo_before n size) mod n)) as [v Hv];
    [done|apply Nat.mod_upper_bound; lia..|].
  by exists v.
Qed.

(** X1. For a halo width [s] between 1 and the side [n] of the field,
    [wrap_pad] returns a field of side [n + 2 s] whose cell [(r, c)] is the
    cell [(r - s, c - s)] of the field modulo [n]: a periodic halo of that
    width on the four sides. *)
Theorem wrap_pad_width n (field : tensor2 F) (s : nat) :
  1 ≤ s → s ≤ n → has_shape2 n n field = true →
  has_shape4 1 (n + 2 * s) (n + 2 * s) 1
    (wrap_pad (to4 field) (Z.of_nat s)) = true
  ∧ ∀ r c, r < n + 2 * s → c < n + 2 * s →
      ∃ v, lookup2 field ((r + n - s) mod n) ((c + n - s) mod n) = Some v
           ∧ lookup4 (wrap_pad (to4 field) (Z.of_nat s)) 0 r c 0 = Some v.
Proof.
  intros Hs1 Hsn Hshape.
  destruct (wrap_pad_cells n field (Z.of_nat s) s s) as [Hsh Hcells];
    [lia|lia|done| | |].
  - unfold halo_before.
    replace (Z.of_nat s =? 0)%Z with false
      by (symmetry; apply Z.eqb_neq; lia). lia.
  - unfold halo_after. lia.
  - replace (n + 2 * s) with (s + n + s) by lia. split; [done|].
    intros r c Hr Hc. by apply Hcells.
Qed.

(** X2. At width 0 nothing is left alone: [-0:] selects the whole axis, so
    [wrap_pad (t, 0)] is the field repeated twice along both axes, of side
    [2 n], with cell [(r, c)] the cell [(r mod n, c mod n)]. *)
Theorem wrap_pad_zero_width n (field : tensor2 F) :
  1 ≤ n → has_shape2 n n field = true →
  has_shape4 1 (2 * n) (2 * n) 1 (wrap_pad (to4 field) 0) = true
  ∧ ∀ r c, r < 2 * n → c < 2 * n →
      ∃ v, lookup2 field (r mod n) (c mod n) = Some v
           ∧ lookup4 (wrap_pad (to4 field) 0) 0 r c 0 = Some v.
Proof.
  intros Hn Hshape.
  destruct (wrap_pad_cells n field 0 n 0) as [Hsh Hcells];
    [lia|lia|done|done|unfold halo_after; simpl; lia|].
  replace (2 * n) with (n + n + 0) by lia. split; [done|].
  intros r c Hr Hc. destruct (Hcells r c Hr Hc) as [v [Hv Hp]].
  exists v. split; [|done].
  by replace (r + n - n) with r in Hv by lia;
     replace (c + n - n) with c in Hv by lia.
Qed.

(** X3. A width larger than the side is clamped by the slices: for [s] at
    least [n] the result is the field repeated three times along both
    axes, of side [3 n], not a halo of width [s]. *)
Theorem wrap_pad_clamped n (field : tensor2 F) (s : nat) :
  1 ≤ n → n ≤ s → has_shape2 n n field = true →
  has_shape4 1 (3 * n) (3 * n) 1 (wrap_pad (to4 field) (Z.of_nat s)) = true
  ∧ ∀ r c, r < 3 * n → c < 3 * n →
      ∃ v, lookup2 field (r mod n) (c mod n) = Some v
           ∧ lookup4 (wrap_pad (to4 field) (Z.of_nat s)) 0 r c 0 = Some v.
Proof.
  intros Hn Hsn Hshape.
  destruct (wrap_pad_cells n field (Z.of_nat s) n n) as [Hsh Hcells];
    [lia|lia|done| | |].
  - unfold halo_before.
    replace (Z.of_nat s =? 0)%Z with false
      by (symmetry; apply Z.eqb_neq; lia). lia.
  - unfold halo_after. lia.
  - replace (3 * n) with (n + n + n) by lia. split; [done|].
    intros r c Hr Hc. destruct (Hcells r c Hr Hc) as [v [Hv Hp]].
    exists v. split; [|done].
    by replace (r + n - n) with r in Hv by lia;
       replace (c + n - n) with c in Hv by lia.
Qed.

End WrapWidth.

(** ** When the run succeeds, and what it leaves *)

Section RunOutcome.
Context {Ar : Arith}.
Implicit Types p : Params.
Implicit Types s : tensor2 f32 * tensor2 f32.

Lemma for_each_ext {S A} (body1 body2 : S → A → option S) (l : list A) (st : S) :
  (∀ st' x, body1 st' x = body2 st' x) →
  for_each body1 l st = for_each body2 l st.
Proof.
  intros Hext. revert st. induction l as [|x l IH]; intros st; [done|].
  simpl. rewrite Hext. destruct (body2 st x); [|done]. simpl. apply IH.
Qed.

Lemma mod_abs_zero (x y : Z) :
  y ≠ 0%Z → (x mod y =? 0)%Z = (x mod Z.abs y =? 0)%Z.
Proof.
  intros Hy. apply eq_true_iff_eq. rewrite !Z.eqb_eq.
  rewrite !Z.mod_divide by lia. symmetry. apply Z.divide_abs_l.
Qed.

(** Only the absolute value of the sampling interval matters. *)
Lemma loop_body_abs p st i :
  loop_body (with_N_STEPS p (Z.abs (N_STEPS p))) st i = loop_body p st i.
Proof.
  unfold loop_body.
  change (sess_run (with_N_STEPS p (Z.abs (N_STEPS p))))
    with (sess_run p).
  destruct (sess_run p (cur_a st) (cur_b st)) as [[na nb]|]; [|done].
  cbn [mbind option_bind N_STEPS with_N_STEPS]. unfold Py.mod_.
  destruct (decide (N_STEPS p = 0%Z)) as [Hz|Hnz].
  - by rewrite Hz.
  - replace (Z.abs (N_STEPS p) =? 0)%Z with false
      by (symmetry; apply Z.eqb_neq; lia).
    replace (N_STEPS p =? 0)%Z with false
      by (symmetry; apply Z.eqb_neq; lia).
    cbn [mbind option_bind]. by rewrite <- mod_abs_zero.
Qed.

Lemma run_from_abs p s0 :
  run_from (with_N_STEPS p (Z.abs (N_STEPS p))) s0 = run_from p s0.
Proof.
  unfold run_from. cbn [N_TIMES with_N_STEPS]. f_equal.
  apply for_each_ext. intros st i. apply loop_body_abs.
Qed.

Lemma steps_with_N_STEPS p n_steps m s :
  steps (with_N_STEPS p n_steps) m s = steps p m s.
Proof.
  revert s. induction m as [|m IH]; intros s; [done|].
  cbn [steps]. change (sess_run (with_N_STEPS p n_steps)) with (sess_run p).
  destruct (sess_run p s.1 s.2) as [s'|]; [|done]. simpl. apply IH.
Qed.

(** The loop for a positive interval, in closed form. *)
Lemma run_from_samples p s0 :
  (1 ≤ N_POINTS p)%Z → (0 ≤ N_TIMES p)%Z → (1 ≤ N_STEPS p)%Z →
  well_shaped p s0 →
  run_from p s0 = Some (samples p s0 (Z.to_nat (N_TIMES p))).*2.
Proof.
  intros HN HT HS Hs0. rewrite run_from_traced. unfold run_traced, Py.range.
  replace (N_TIMES p) with (Z.of_nat (Z.to_nat (N_TIMES p))) at 1 by lia.
  by rewrite traced_prefix.
Qed.

Lemma run_from_empty p s0 : (N_TIMES p ≤ 0)%Z → run_from p s0 = Some [s0].
Proof.
  intros HT. unfold run_from, Py.range. by rewrite seqZ_nil by lia.
Qed.

Lemma run_from_zero_step p s0 :
  N_STEPS p = 0%Z → (1 ≤ N_TIMES p)%Z → run_from p s0 = None.
Proof.
  intros HS HT. unfold run_from, Py.range.
  rewrite seqZ_cons by lia. simpl. unfold loop_body, Py.mod_. rewrite HS.
  simpl. by destruct (sess_run p s0.1 s0.2) as [[na nb]|].
Qed.

Lemma run_small_grid p : (N_POINTS p < 1)%Z → run p = None.
Proof.
  intros HN. unfold run.
  destruct (initialize p) as [s0|]; [|done]. simpl.
  unfold build_graph, wrap_dim, Py.bounds, Py.norm_index. simpl.
  destruct (N_POINTS p <? 0)%Z eqn:Hneg; [done|].
  apply Z.ltb_ge in Hneg. assert (N_POINTS p = 0%Z) as -> by lia.
  done.
Qed.

Lemma run_nonzero_step p :
  (1 ≤ N_POINTS p)%Z → (0 ≤ N_TIMES p)%Z → N_STEPS p ≠ 0%Z →
  ∃ s0, initialize p = Some s0 ∧ well_shaped p s0
        ∧ run p
          = Some (samples (with_N_STEPS p (Z.abs (N_STEPS p))) s0
                    (Z.to_nat (N_TIMES p))).*2.
Proof.
  intros HN HT HS.
  destruct (initialize_well_shaped p) as [s0 [Hinit Hs0]]; [lia|].
  exists s0. split; [done|]. split; [done|].
  unfold run. rewrite Hinit, build_graph_ok by done. simpl.
  rewrite <- run_from_abs.
  apply (run_from_samples (with_N_STEPS p (Z.abs (N_STEPS p))));
    cbn [N_POINTS N_TIMES N_STEPS with_N_STEPS]; (done || lia).
Qed.

Lemma run_Some_inv p ev :
  run p = Some ev →
  (1 ≤ N_POINTS p)%Z ∧ ((N_TIMES p ≤ 0)%Z ∨ N_STEPS p ≠ 0%Z).
Proof.
  intros Hrun.
  destruct (decide (1 ≤ N_POINTS p)%Z) as [HN|HN];
    [|by rewrite run_small_grid in Hrun by lia].
  split; [done|].
  destruct (decide (N_TIMES p ≤ 0)%Z) as [HT|HT]; [by left|right].
  intros HS. unfold run in Hrun.
  destruct (initialize p) as [s0|]; [|done].
  rewrite build_graph_ok in Hrun by done. simpl in Hrun.
  by rewrite run_from_zero_step in Hrun by (done || lia).
Qed.

(** X4. The notebook runs to the end exactly when the grid has at least
    one point and the loop either has no iteration or a non-zero sampling
    interval: a grid without points is refused when the graph is built,
    and an interval of zero raises at the first iteration. *)
Theorem run_succeeds_iff p :
  is_Some (run p)
  ↔ (1 ≤ N_POINTS p)%Z ∧ ((N_TIMES p ≤ 0)%Z ∨ N_STEPS p ≠ 0%Z).
Proof.
  split.
  - intros [ev Hrun]. by apply (run_Some_inv p ev).
  - intros [HN [HT|HS]].
    + destruct (initialize_well_shaped p) as [s0 [Hinit _]]; [lia|].
      unfold run. rewrite Hinit, build_graph_ok by done. simpl.
      by rewrite run_from_empty.
    + destruct (decide (N_TIMES p ≤ 0)%Z) as [HT|HT].
      * destruct (initialize_well_shaped p) as [s0 [Hinit _]]; [lia|].
        unfold run. rewrite Hinit, build_graph_ok by done. simpl.
        by rewrite run_from_empty.
      * destruct (run_nonzero_step p) as [s0 [_ [_ ->]]]; (done || lia).
Qed.

(** X5. Only the absolute value of [N_STEPS] counts, since [%] is compared
    with zero: for any non-zero interval, negative ones included,
    [evolution] has [1 + N_TIMES / |N_STEPS|] entries and entry [q] is the
    state after [q * |N_STEPS|] evaluations of the graph. *)
Theorem sampling_any_interval p :
  (1 ≤ N_POINTS p)%Z → (0 ≤ N_TIMES p)%Z → N_STEPS p ≠ 0%Z →
  ∃ s0 ev,
    initialize p = Some s0 ∧ run p = Some ev
    ∧ length ev = Z.to_nat (1 + N_TIMES p / Z.abs (N_STEPS p))
    ∧ ∀ q : nat, (Z.of_nat q ≤ N_TIMES p / Z.abs (N_STEPS p))%Z →
        ∃ s, steps p (q * Z.to_nat (Z.abs (N_STEPS p))) s0 = Some s
             ∧ ev !! q = Some s.
Proof.
  intros HN HT HS.
  destruct (run_nonzero_step p HN HT HS) as [s0 [Hinit [Hs0 Hrun]]].
  set (p' := with_N_STEPS p (Z.abs (N_STEPS p))) in *.
  set (m := Z.to_nat (N_TIMES p)) in *.
  set (ns := Z.to_nat (Z.abs (N_STEPS p))).
  assert (Z.of_nat (m / ns) = N_TIMES p / Z.abs (N_STEPS p))%Z as Hdiv.
  { rewrite Nat2Z.inj_div. unfold m, ns. f_equal; lia. }
  exists s0, (samples p' s0 m).*2. split; [done|]. split; [done|]. split.
  { rewrite length_fmap. unfold samples. rewrite length_fmap, length_seq.
    cbn [N_STEPS p' with_N_STEPS]. fold ns. lia. }
  intros q Hq. exists (state_after p' s0 (q * ns)). split.
  - rewrite <- (steps_with_N_STEPS p (Z.abs (N_STEPS p))). fold p'.
    by apply steps_total.
  - rewrite list_lookup_fmap, lookup_samples
      by (cbn [N_STEPS p' with_N_STEPS]; fold ns; lia).
    done.
Qed.

Lemma run_record p ev :
  run p = Some ev →
  (∃ s0, initialize p = Some s0 ∧ ev !! 0 = Some s0)
  ∧ ∀ i e, ev !! i = Some e → well_shaped p e.
Proof.
  intros Hrun.
  destruct (run_Some_inv p ev Hrun) as [HN Hloop].
  destruct (initialize_well_shaped p) as [s0 [Hinit Hs0]]; [lia|].
  destruct (decide (N_TIMES p ≤ 0)%Z) as [HT|HT].
  - unfold run in Hrun. rewrite Hinit, build_graph_ok in Hrun by done.
    simpl in Hrun. rewrite run_from_empty in Hrun by done.
    injection Hrun as <-. split; [by exists s0|].
    intros [|i] e He; [|done]. by injection He as <-.
  - destruct Hloop as [?|HS]; [done|].
    destruct (run_nonzero_step p) as [s0' [Hinit' [_ Hrun']]];
      [done|lia|done|].
    assert (s0' = s0) as -> by congruence.
    set (p' := with_N_STEPS p (Z.abs (N_STEPS p))) in *.
    assert (ev = (samples p' s0 (Z.to_nat (N_TIMES p))).*2) as ->
      by congruence.
    split.
    + exists s0. split; [done|].
      rewrite list_lookup_fmap, lookup_samples by lia. done.
    + intros i e He. rewrite list_lookup_fmap in He.
      unfold samples in He. rewrite list_lookup_fmap in He.
      destruct (seq 0 _ !! i) as [q|]; [|done]. simpl in He.
      injection He as <-.
      apply (steps_total p' _ s0); [done|done].
Qed.

(** X6. Whatever the parameters, a run that completes leaves a record that
    begins with the starting state and whose entries all hold two fields
    of [N_POINTS] x [N_POINTS] cells, so that [np.array(evolution)] is a
    rectangular array. *)
Theorem run_record_rectangular p ev :
  run p = Some ev →
  (∃ s0, initialize p = Some s0 ∧ ev !! 0 = Some s0)
  ∧ ∀ i e, ev !! i = Some e → well_shaped p e.
Proof. apply run_record. Qed.

(** X7. The last entry, which cell 8 reads as [b_list[-1,:,:]], is the state
    after [N_TIMES - N_TIMES mod N_STEPS] evaluations of the graph: the
    steps after the last multiple of [N_STEPS] are computed but never
    recorded. *)
Theorem last_entry p :
  (1 ≤ N_POINTS p)%Z → (0 ≤ N_TIMES p)%Z → (1 ≤ N_STEPS p)%Z →
  ∃ s0 ev s,
    initialize p = Some s0 ∧ run p = Some ev
    ∧ steps p (Z.to_nat (N_TIMES p - N_TIMES p mod N_STEPS p)) s0 = Some s
    ∧ np_index (a_list ev) (-1) = Some s.1
    ∧ np_index (b_list ev) (-1) = Some s.2.
Proof.
  intros HN HT HS.
  destruct (initialize_well_shaped p) as [s0 [Hinit Hs0]]; [lia|].
  set (m := Z.to_nat (N_TIMES p)). set (ns := Z.to_nat (N_STEPS p)).
  assert (Z.of_nat (m / ns) = N_TIMES p / N_STEPS p)%Z as Hdiv.
  { rewrite Nat2Z.inj_div. unfold m, ns. f_equal; lia. }
  assert (Z.to_nat (N_TIMES p - N_TIMES p mod N_STEPS p) = m / ns * ns)
    as Hlast.
  { apply Nat2Z.inj. rewrite Nat2Z.inj_mul, Hdiv.
    replace (Z.of_nat ns) with (N_STEPS p) by (unfold ns; lia).
    pose proof (Z.div_mod (N_TIMES p) (N_STEPS p) ltac:(lia)) as Hdm.
    pose proof (Z.mod_pos_bound (N_TIMES p) (N_STEPS p) ltac:(lia)).
    rewrite Z.mul_comm in Hdm. lia. }
  exists s0, (samples p s0 m).*2, (state_after p s0 (m / ns * ns)).
  split; [done|]. split.
  { unfold run. rewrite Hinit, build_graph_ok by done. simpl.
    by apply run_from_samples. }
  split; [rewrite Hlast; by apply steps_total|].
  assert (∀ {B} (g : tensor2 f32 * tensor2 f32 → B),
            np_index (g <$> (samples p s0 m).*2) (-1)
            = Some (g (state_after p s0 (m / ns * ns)))) as Hidx.
  { intros B g.
    assert (length (samples p s0 m) = S (m / ns)) as Hlen
      by (unfold samples; by rewrite length_fmap, length_seq).
    unfold np_index. rewrite !length_fmap, Hlen.
    replace (-1 <? - Z.of_nat (S (m / ns)))%Z with false
      by (symmetry; apply Z.ltb_ge; lia).
    replace (Z.of_nat (S (m / ns)) <=? -1)%Z with false
      by (symmetry; apply Z.leb_gt; lia).
    cbn [orb]. change (-1 <? 0)%Z with true. cbv iota.
    replace (Z.to_nat (-1 + Z.of_nat (S (m / ns)))) with (m / ns) by lia.
    rewrite !list_lookup_fmap, lookup_samples by (fold ns; lia). done. }
  split; apply Hidx.
Qed.

End RunOutcome.

(** ** When one evaluation succeeds; seeds anywhere *)

Section Feeds.
Context {Ar : Arith}.
Implicit Types p : Params.
Implicit Types a b : tensor2 f32.

Lemma placeholder_Some_inv p a v :
  placeholder p a = Some v →
  v = a ∧ (0 ≤ N_POINTS p)%Z
  ∧ has_shape2 (Z.to_nat (N_POINTS p)) (Z.to_nat (N_POINTS p)) a = true.
Proof.
  unfold placeholder. intros Hph.
  destruct (0 <=? N_POINTS p)%Z eqn:HN; [|done].
  destruct (has_shape2 _ _ a) eqn:Ha; [|done].
  apply Z.leb_le in HN. simpl in Hph. by injection Hph as <-.
Qed.

Lemma sess_run_no_points p a b : N_POINTS p = 0%Z → sess_run p a b = None.
Proof.
  intros HN. unfold sess_run.
  destruct (placeholder p a) as [ca|] eqn:Hca; [|done].
  destruct (placeholder p b) as [cb|] eqn:Hcb; [|done].
  apply placeholder_Some_inv in Hca as [-> [_ Ha]].
  apply placeholder_Some_inv in Hcb as [-> [_ Hb]].
  rewrite HN in Ha, Hb.
  apply has_shape2_spec in Ha as [Ha _]. apply has_shape2_spec in Hb as [Hb _].
  apply length_zero_iff_nil in Ha, Hb. subst a b.
  unfold input_a, input_b, next_a, diff_a. rewrite HN, kernel_a_eq. done.
Qed.

(** X8. One evaluation of the graph succeeds exactly when the grid has at
    least one point and both fed fields have the shape of the
    placeholders; any other feed is refused. *)
Theorem sess_run_succeeds_iff p a b :
  is_Some (sess_run p a b)
  ↔ (1 ≤ N_POINTS p)%Z
    ∧ has_shape2 (Z.to_nat (N_POINTS p)) (Z.to_nat (N_POINTS p)) a = true
    ∧ has_shape2 (Z.to_nat (N_POINTS p)) (Z.to_nat (N_POINTS p)) b = true.
Proof.
  split.
  - intros [s Hrun].
    destruct (decide (N_POINTS p = 0%Z)) as [HN|HN];
      [by rewrite sess_run_no_points in Hrun|].
    unfold sess_run in Hrun.
    destruct (placeholder p a) as [ca|] eqn:Hca; [|done].
    destruct (placeholder p b) as [cb|] eqn:Hcb; [|done].
    apply placeholder_Some_inv in Hca as [_ [HN0 Ha]].
    apply placeholder_Some_inv in Hcb as [_ [_ Hb]].
    split; [lia|done].
  - intros [HN [Ha Hb]].
    rewrite (sess_run_cells (Z.to_nat (N_POINTS p))) by (done || lia). done.
Qed.

Lemma selects_between len s e i :
  (0 ≤ len)%Z →
  Py.selects len (Some s) (Some e) i
  = bool_decide (Py.norm_index len s ≤ Z.of_nat i < Py.norm_index len e)%Z.
Proof.
  intros Hlen. unfold Py.selects, Py.bounds. simpl.
  assert (0 ≤ Py.norm_index len s)%Z
    by (unfold Py.norm_index; case_match; lia).
  apply eq_true_iff_eq.
  rewrite andb_true_iff, Nat.leb_le, Nat.ltb_lt, bool_decide_eq_true. lia.
Qed.

Lemma lookup2_seed_any p n b i j v :
  has_shape2 n n b = true → i < n → j < n →
  lookup2 b i j = Some v →
  lookup2 (seed p b) i j
  = Some (if Py.selects (Z.of_nat n) (Some (SEED_START p))
               (Some (SEED_START p + SEED_SIZE p)%Z) i
             && Py.selects (Z.of_nat n) (Some (SEED_START p))
                  (Some (SEED_START p + SEED_SIZE p)%Z) j
          then f_one else v).
Proof.
  intros [Hlen Hrows]%has_shape2_spec Hi Hj Hv.
  unfold lookup2, seed in *. rewrite lookup_slice_update.
  destruct (b !! i) as [row|] eqn:Hrow; [|done]. simpl in *.
  assert (length row = n) as Hl.
  { rewrite Forall_forall in Hrows. apply Hrows.
    by eapply list_elem_of_lookup_2. }
  rewrite Hlen. destruct (Py.selects _ _ _ i); simpl; [|done].
  rewrite lookup_slice_update, Hv. simpl. by rewrite Hl.
Qed.

(** X9. The starting state for any integers, with the slice semantics of
    NumPy.  A negative grid size is refused.  Otherwise [a] is 1.0
    everywhere and [b] is 1.0 exactly on the cells whose row and column lie
    between the two slice bounds [SEED_START] and [SEED_START + SEED_SIZE],
    each taken from the far edge when negative and clamped to the grid. *)
Theorem initialize_slices p :
  ((N_POINTS p < 0)%Z ∧ initialize p = None)
  ∨ ((0 ≤ N_POINTS p)%Z
     ∧ ∃ a b,
         initialize p = Some (a, b)
         ∧ ∀ i j, i < Z.to_nat (N_POINTS p) → j < Z.to_nat (N_POINTS p) →
             let lo := Py.norm_index (N_POINTS p) (SEED_START p) in
             let hi :=
               Py.norm_index (N_POINTS p) (SEED_START p + SEED_SIZE p) in
             lookup2 a i j = Some (cast (py_lit 1))
             ∧ lookup2 b i j
               = Some (if bool_decide (lo ≤ Z.of_nat i < hi)%Z
                          && bool_decide (lo ≤ Z.of_nat j < hi)%Z
                       then cast (py_lit 1) else cast (py_lit 0))).
Proof.
  destruct (decide (N_POINTS p < 0)%Z) as [HN|HN].
  - left. split; [done|]. unfold initialize, np_full.
    by replace (N_POINTS p <? 0)%Z with true by (symmetry; apply Z.ltb_lt; lia).
  - right. split; [lia|].
    eexists _, _. split; [apply initialize_eq; lia|].
    intros i j Hi Hj lo hi. split; [by apply lookup2_const|].
    rewrite (lookup2_seed_any p (Z.to_nat (N_POINTS p)) _ i j f_zero);
      [|apply has_shape2_const|done|done|by apply lookup2_const].
    replace (Z.of_nat (Z.to_nat (N_POINTS p))) with (N_POINTS p) by lia.
    by rewrite !selects_between by lia.
Qed.

(** X10. The seed is not periodic: a patch that starts before the origin
    and reaches it or beyond ([SEED_START < 0 <= SEED_START + SEED_SIZE]),
    and is not larger than the grid, selects an empty slice, and [b] is
    0.0 everywhere. *)
Theorem seed_across_origin_dropped p :
  (0 ≤ N_POINTS p)%Z → (SEED_START p < 0)%Z →
  (0 ≤ SEED_START p + SEED_SIZE p)%Z → (SEED_SIZE p ≤ N_POINTS p)%Z →
  ∃ a b,
    initialize p = Some (a, b)
    ∧ ∀ i j, i < Z.to_nat (N_POINTS p) → j < Z.to_nat (N_POINTS p) →
        lookup2 b i j = Some (cast (py_lit 0)).
Proof.
  intros HN HS HE HZ. eexists _, _. split; [by apply initialize_eq|].
  intros i j Hi Hj.
  rewrite (lookup2_seed_any p (Z.to_nat (N_POINTS p)) _ i j f_zero);
    [|apply has_shape2_const|done|done|by apply lookup2_const].
  replace (Z.of_nat (Z.to_nat (N_POINTS p))) with (N_POINTS p) by lia.
  rewrite !selects_between by done.
  rewrite (bool_decide_eq_false_2 (_ ≤ Z.of_nat i < _)%Z); [done|].
  unfold Py.norm_index.
  replace (SEED_START p <? 0)%Z with true by (symmetry; apply Z.ltb_lt; lia).
  replace (SEED_START p + SEED_SIZE p <? 0)%Z with false
    by (symmetry; apply Z.ltb_ge; lia).
  lia.
Qed.

End Feeds.

(** ** Uniform states and translations *)

Section Symmetry.
Context {Ar : Arith}.
Implicit Types p : Params.
Implicit Types a b : tensor2 f32.

Lemma sess_run_const_field p (x y : f32) :
  let n := Z.to_nat (N_POINTS p) in
  1 ≤ n →
  sess_run p (const_field n x) (const_field n y)
  = Some (const_field n
            (f_add (f_add x (stencil_const (py_mul (DA p) (TIME_STEP p)) x))
                   (react_a_cell p x y)),
          const_field n
            (f_add (f_add y (stencil_const (py_mul (DB p) (TIME_STEP p)) y))
                   (react_b_cell p x y))).
Proof.
  intros n Hn.
  rewrite (sess_run_cells n) by (done || apply has_shape2_const).
  do 2 f_equal; (etrans; [|apply tab_const]); apply tab_ext;
    intros i j Hi Hj.
  - unfold next_a_cell.
    rewrite (stencil_uniform _ _ n i j x) by (intros; by apply torus_const).
    by rewrite !torus_const.
  - unfold next_b_cell.
    rewrite (stencil_uniform _ _ n i j y) by (intros; by apply torus_const).
    by rewrite !torus_const.
Qed.

Lemma stencil_ext s a a' n i j i' j' :
  (∀ di dj, torus a n i j di dj = torus a' n i' j' di dj) →
  stencil s a n i j = stencil s a' n i' j'.
Proof.
  intros Ht. unfold stencil, taps. cbn [fmap list_fmap]. by rewrite !Ht.
Qed.

Lemma torus_roll n u v a i j di dj :
  1 ≤ n → i < n → j < n →
  torus (roll n u v a) n i j di dj
  = torus a n ((i + u) mod n) ((j + v) mod n) di dj.
Proof.
  intros Hn Hi Hj. unfold torus at 1, roll.
  rewrite lookup2_tab by (apply Nat.mod_upper_bound; lia).
  unfold torus. simpl. do 2 f_equal.
  - rewrite Nat.Div0.add_mod_idemp_l.
    replace ((i + u) mod n + di + n - 1) with ((i + u) mod n + (di + n - 1))
      by lia.
    rewrite Nat.Div0.add_mod_idemp_l. f_equal. lia.
  - rewrite Nat.Div0.add_mod_idemp_l.
    replace ((j + v) mod n + dj + n - 1) with ((j + v) mod n + (dj + n - 1))
      by lia.
    rewrite Nat.Div0.add_mod_idemp_l. f_equal. lia.
Qed.

Lemma roll_tab n u v (g : nat → nat → f32) :
  1 ≤ n →
  roll n u v (tab n g) = tab n (λ i j, g ((i + u) mod n) ((j + v) mod n)).
Proof.
  intros Hn. unfold roll. apply tab_ext. intros i j Hi Hj.
  by rewrite lookup2_tab by (apply Nat.mod_upper_bound; lia).
Qed.

Lemma has_shape2_roll n u v a : has_shape2 n n (roll n u v a) = true.
Proof. apply has_shape2_tab. Qed.

(** X12. The step has no preferred origin: moving both fields by the same
    offset on the torus and then stepping gives the result of stepping and
    then moving, cell for cell and in any arithmetic. *)
Theorem step_commutes_with_roll p a b u v :
  let n := Z.to_nat (N_POINTS p) in
  1 ≤ n → has_shape2 n n a = true → has_shape2 n n b = true →
  ∃ new_a new_b,
    sess_run p a b = Some (new_a, new_b)
    ∧ sess_run p (roll n u v a) (roll n u v b)
      = Some (roll n u v new_a, roll n u v new_b).
Proof.
  intros n Hn Ha Hb. eexists _, _.
  split; [by apply (sess_run_cells n)|].
  rewrite (sess_run_cells n) by (done || apply has_shape2_roll).
  rewrite !roll_tab by done.
  do 2 f_equal; apply tab_ext; intros i j Hi Hj.
  - unfold next_a_cell. rewrite !torus_roll by done.
    f_equal. f_equal. apply stencil_ext. intros di dj. by apply torus_roll.
  - unfold next_b_cell. rewrite !torus_roll by done.
    f_equal. f_equal. apply stencil_ext. intros di dj. by apply torus_roll.
Qed.

End Symmetry.

Lemma exact_react_a (p : Params (Ar := Exact.arith)) (x y : Qc) :
  react_a_cell p x y = (TIME_STEP p * (- x * y * y + f p * (1 - x)))%Qc.
Proof. reflexivity. Qed.

Lemma exact_react_b (p : Params (Ar := Exact.arith)) (x y : Qc) :
  react_b_cell p x y = (TIME_STEP p * (x * y * y - (k p + f p) * y))%Qc.
Proof. reflexivity. Qed.

(** X11. A uniform state stays uniform.  In any arithmetic, from two
    constant fields one evaluation of the graph returns two constant fields
    (the same rounded expression in every cell).  In exact arithmetic
    diffusion drops out and the two values follow the explicit Euler step of
    the reaction alone; in particular [a = 1], [b = 0] is a fixed point. *)
Theorem uniform_state (n : nat) :
  1 ≤ n →
  (∀ (Ar : Arith) (p : Params) (x y : f32),
      Z.to_nat (N_POINTS p) = n →
      sess_run p (const_field n x) (const_field n y)
      = Some (const_field n
                (f_add (f_add x
                          (stencil_const (py_mul (DA p) (TIME_STEP p)) x))
                       (react_a_cell p x y)),
              const_field n
                (f_add (f_add y
                          (stencil_const (py_mul (DB p) (TIME_STEP p)) y))
                       (react_b_cell p x y))))
  ∧ (∀ (p : Params (Ar := Exact.arith)) (x y : Qc),
        Z.to_nat (N_POINTS p) = n →
        sess_run p (const_field n x) (const_field n y)
        = Some (const_field n
                  (x + TIME_STEP p * (- x * y * y + f p * (1 - x)))%Qc,
                const_field n
                  (y + TIME_STEP p * (x * y * y - (k p + f p) * y))%Qc)).
Proof.
  intros Hn. split.
  - intros Ar p x y HN. subst n. by apply sess_run_const_field.
  - intros p x y HN. subst n.
    pose proof (sess_run_const_field (Ar := Exact.arith) p x y Hn) as Hrun.
    cbv zeta in Hrun.
    rewrite !exact_weights_cancel, exact_react_a, exact_react_b in Hrun.
    etrans; [exact Hrun|]. do 3 f_equal.
    + match goal with |- @eq _ ?l ?r => change (@eq Qc l r) end.
      cbn [f_add Exact.arith]. ring.
    + match goal with |- @eq _ ?l ?r => change (@eq Qc l r) end.
      cbn [f_add Exact.arith]. ring.
Qed.

(** ** The frames of the animation *)

Section Frames.
#[local] Existing Instance B32.arith.

Lemma np_max_zeros x rest :
  Post.is_zero x = true → forallb Post.is_zero rest = true →
  ∃ m, Post.np_max (x :: rest) = Some m ∧ Post.is_zero m = true.
Proof.
  intros Hx Hrest. unfold Post.np_max. eexists. split; [done|].
  revert x Hx. induction rest as [|y rest IH]; intros x Hx; [done|].
  simpl in Hrest. apply andb_true_iff in Hrest as [Hy Hrest].
  cbn [foldl]. apply IH; [done|].
  destruct x; try done. destruct y; try done.
Qed.

(** X16. [make_binary] returns only 0.0 and 1.0, it turns a NaN cell into
    1.0 (a NaN is not below the threshold), and applying it twice changes
    nothing. *)
Theorem make_binary_idempotent (image : tensor2 spec_float) :
  Forall (Forall (λ x, x = B32.lit 0.0 ∨ x = B32.lit 1.0))
    (Post.make_binary image)
  ∧ (∀ i j, lookup2 image i j = Some S754_nan →
            lookup2 (Post.make_binary image) i j = Some (B32.lit 1.0))
  ∧ Post.make_binary (Post.make_binary image) = Post.make_binary image.
Proof.
  unfold Post.make_binary. split; [|split].
  - apply Forall_fmap, Forall_forall. intros row _.
    apply Forall_fmap, Forall_forall. intros x _. simpl.
    destruct (SFltb x (B32.lit 0.2)); auto.
  - intros i j. unfold lookup2. rewrite list_lookup_fmap.
    destruct (image !! i) as [row|]; [|done].
    cbn [fmap option_fmap option_map mbind option_bind].
    rewrite list_lookup_fmap. by intros ->.
  - rewrite <- list_fmap_compose. apply list_fmap_ext. intros i row _.
    simpl. rewrite <- list_fmap_compose. apply list_fmap_ext. intros j x _.
    simpl. by destruct (SFltb x (B32.lit 0.2)).
Qed.

(** X17. A frame that is zero everywhere has maximum zero, and [normalize]
    divides zero by zero: every cell of the result is NaN. *)
Theorem normalize_zero_frame (image : tensor2 spec_float) :
  0 < length (concat image) →
  forallb (forallb Post.is_zero) image = true →
  Post.normalize image
  = Some (fmap (M := list) (λ _, S754_nan) <$> image).
Proof.
  intros Hlen Hz. unfold Post.normalize.
  assert (forallb Post.is_zero (concat image) = true) as Hall.
  { clear Hlen. induction image as [|row image IH]; [done|].
    simpl in *. apply andb_true_iff in Hz as [Hrow Him].
    rewrite forallb_app, Hrow. by apply IH. }
  destruct (concat image) as [|x rest] eqn:Hc; [simpl in Hlen; lia|].
  simpl in Hall. apply andb_true_iff in Hall as [Hx Hrest].
  destruct (np_max_zeros x rest Hx Hrest) as [m [-> Hm]].
  cbn [mbind option_bind]. f_equal.
  apply list_fmap_ext. intros i row Hrow.
  apply list_fmap_ext. intros j y Hy.
  assert (Post.is_zero y = true) as Hy0.
  { rewrite forallb_forall in Hz.
    pose proof (Hz row) as Hr. rewrite forallb_forall in Hr.
    apply Hr.
    - apply list_elem_of_In. by eapply list_elem_of_lookup_2.
    - apply list_elem_of_In. by eapply list_elem_of_lookup_2. }
  destruct y; try done. by destruct m.
Qed.

Lemma normalize_is_Some n (image : tensor2 spec_float) :
  1 ≤ n → has_shape2 n n image = true → is_Some (Post.normalize image).
Proof.
  intros Hn Hshape. unfold Post.normalize.
  pose proof (length_concat_shape n n image Hshape) as Hlen.
  destruct (concat image) as [|x rest]; [simpl in Hlen; nia|]. done.
Qed.

Lemma has_shape2_fmap {A B} (g : A → B) n m (t : tensor2 A) :
  has_shape2 n m t = true →
  has_shape2 n m (fmap (M := list) g <$> t) = true.
Proof.
  intros [Hlen Hrows]%has_shape2_spec. apply has_shape2_spec.
  split; [by rewrite length_fmap|].
  apply Forall_fmap. eapply Forall_impl; [exact Hrows|].
  intros row Hrow. simpl. by rewrite length_fmap.
Qed.

(** X18. The animation asks for one frame too many: [n_frames] is the
    number of entries plus one, so after a run that completed every frame
    number below the number of entries yields an image, and the last one
    requested, equal to the number of entries, indexes [b_list] out of
    range and raises. *)
Theorem animation_last_frame (p : Params)
    (ev : list (tensor2 spec_float * tensor2 spec_float)) :
  run p = Some ev →
  (∀ i : nat, i < length ev →
     is_Some (Post.function_for_animation (Post.b_list ev) (Z.of_nat i)))
  ∧ Z.of_nat (length ev) ∈ Post.frames (Post.b_list ev)
  ∧ Post.function_for_animation (Post.b_list ev) (Z.of_nat (length ev))
    = None.
Proof.
  intros Hrun.
  destruct (run_Some_inv p ev Hrun) as [HN _].
  destruct (run_record p ev Hrun) as [_ Hshape].
  assert (length (Post.b_list ev) = length ev) as Hlen
    by (unfold Post.b_list; by rewrite !length_fmap).
  split; [|split].
  - intros i Hi. unfold Post.function_for_animation, np_index.
    rewrite Hlen.
    replace (Z.of_nat i <? - Z.of_nat (length ev))%Z with false
      by (symmetry; apply Z.ltb_ge; lia).
    replace (Z.of_nat (length ev) <=? Z.of_nat i)%Z with false
      by (symmetry; apply Z.leb_gt; lia).
    replace (Z.of_nat i <? 0)%Z with false
      by (symmetry; apply Z.ltb_ge; lia).
    cbn [orb]. rewrite Nat2Z.id. unfold Post.b_list.
    rewrite !list_lookup_fmap.
    destruct (lookup_lt_is_Some_2 ev i Hi) as [e He]. rewrite He.
    cbn [fmap option_fmap option_map mbind option_bind].
    apply (normalize_is_Some (Z.to_nat (N_POINTS p))); [lia|].
    apply has_shape2_fmap. by apply (Hshape i e He).
  - unfold Post.frames, Post.n_frames, Py.range. rewrite Hlen.
    apply elem_of_seqZ. lia.
  - unfold Post.function_for_animation, np_index. rewrite Hlen.
    replace (Z.of_nat (length ev) <=? Z.of_nat (length ev))%Z with true
      by (symmetry; apply Z.leb_le; lia).
    by rewrite orb_true_r.
Qed.

End Frames.

(** ** A field of zeros in binary32 *)

Section Rounded.
#[local] Existing Instance B32.arith.

Lemma forallb2_lookup2 (P : spec_float → bool) (a : tensor2 spec_float)
    i j x :
  forallb (forallb P) a = true → lookup2 a i j = Some x → P x = true.
Proof.
  intros Hall Hx. unfold lookup2 in Hx.
  destruct (a !! i) as [row|] eqn:Hrow; [|done]. simpl in Hx.
  rewrite forallb_forall in Hall.
  assert (forallb P row = true) as Hr.
  { apply Hall, list_elem_of_In. by eapply list_elem_of_lookup_2. }
  rewrite forallb_forall in Hr.
  apply Hr, list_elem_of_In. by eapply list_elem_of_lookup_2.
Qed.

Lemma react_b_zero (p : Params) x :
  B32.is_finite x = true →
  B32.is_finite (cast (TIME_STEP p)) = true →
  B32.is_finite (cast (py_add (k p) (f p))) = true →
  ∃ s, react_b_cell p x (S754_zero false) = S754_zero s.
Proof.
  intros Hx Hdt Hkf. unfold react_b_cell.
  rewrite (mul_zero_r x), (mul_zero_l _ (S754_zero false)),
    (mul_zero_r (cast (py_add (k p) (f p)))), sub_zeros, mul_zero_r by done.
  by eexists.
Qed.

(** X15. [b] does not appear by itself, rounding included: in binary32,
    when the cells of [a], the entries of [kernel_b] and the binary32
    values of [TIME_STEP] and [k + f] are finite, a field [b] of zeros is
    again the field of zeros after one evaluation of the graph. *)
Theorem zero_b_stays_zero (p : Params) (a : tensor2 spec_float) :
  let n := Z.to_nat (N_POINTS p) in
  1 ≤ n → has_shape2 n n a = true →
  forallb (forallb B32.is_finite) a = true →
  forallb (λ '(di, dj),
             B32.is_finite (weight (py_mul (DB p) (TIME_STEP p)) di dj))
    taps = true →
  B32.is_finite (cast (TIME_STEP p)) = true →
  B32.is_finite (cast (py_add (k p) (f p))) = true →
  ∃ new_a,
    sess_run p a (const_field n B32.zero)
    = Some (new_a, const_field n B32.zero).
Proof.
  intros n Hn Ha Hfin Hw Hdt Hkf. eexists.
  rewrite (sess_run_cells n) by (done || apply has_shape2_const).
  do 2 f_equal. etrans; [|apply tab_const]. apply tab_ext.
  intros i j Hi Hj. unfold next_b_cell.
  rewrite (stencil_uniform _ _ n i j B32.zero)
    by (intros; by apply torus_const).
  rewrite !torus_const by done.
  rewrite torus_centre by done.
  destruct (lookup2_is_Some n a i j Ha Hi Hj) as [x Hx].
  assert (lookup2 (F := f32) a i j = Some x) as -> by exact Hx.
  cbn [default from_option id].
  change B32.zero with (S754_zero false).
  rewrite stencil_const_zero by done.
  destruct (react_b_zero p x) as [s ->];
    [by eapply forallb2_lookup2|done|done|].
  by rewrite !add_zeros.
Qed.

End Rounded.

(** ** The further properties on small inputs *)

Section MoreInstances.
#[local] Existing Instance B32.arith.

Lemma wrap_pad_width_witness :
  1 ≤ 2 ∧ 2 ≤ 3
  ∧ has_shape2 3 3 [[1; 2; 3]; [4; 5; 6]; [7; 8; 9]] = true
  ∧ has_shape4 1 (3 + 2 * 2) (3 + 2 * 2) 1
      (wrap_pad (to4 [[1; 2; 3]; [4; 5; 6]; [7; 8; 9]]) (Z.of_nat 2)) = true
  ∧ ∀ r c, r < 3 + 2 * 2 → c < 3 + 2 * 2 →
      ∃ v, lookup2 [[1; 2; 3]; [4; 5; 6]; [7; 8; 9]]
             ((r + 3 - 2) mod 3) ((c + 3 - 2) mod 3) = Some v
           ∧ lookup4 (wrap_pad (to4 [[1; 2; 3]; [4; 5; 6]; [7; 8; 9]])
                        (Z.of_nat 2)) 0 r c 0 = Some v.
Proof.
  split; [lia|]. split; [lia|]. split; [reflexivity|].
  apply (wrap_pad_width 3 [[1; 2; 3]; [4; 5; 6]; [7; 8; 9]] 2);
    [lia|lia|reflexivity].
Defined.

Lemma wrap_pad_zero_width_witness :
  1 ≤ 2 ∧ has_shape2 2 2 [[1; 2]; [3; 4]] = true
  ∧ has_shape4 1 (2 * 2) (2 * 2) 1 (wrap_pad (to4 [[1; 2]; [3; 4]]) 0) = true
  ∧ ∀ r c, r < 2 * 2 → c < 2 * 2 →
      ∃ v, lookup2 [[1; 2]; [3; 4]] (r mod 2) (c mod 2) = Some v
           ∧ lookup4 (wrap_pad (to4 [[1; 2]; [3; 4]]) 0) 0 r c 0 = Some v.
Proof.
  split; [lia|]. split; [reflexivity|].
  apply (wrap_pad_zero_width 2 [[1; 2]; [3; 4]]); [lia|reflexivity].
Defined.

Lemma wrap_pad_clamped_witness :
  1 ≤ 2 ∧ 2 ≤ 5 ∧ has_shape2 2 2 [[1; 2]; [3; 4]] = true
  ∧ has_shape4 1 (3 * 2) (3 * 2) 1
      (wrap_pad (to4 [[1; 2]; [3; 4]]) (Z.of_nat 5)) = true
  ∧ ∀ r c, r < 3 * 2 → c < 3 * 2 →
      ∃ v, lookup2 [[1; 2]; [3; 4]] (r mod 2) (c mod 2) = Some v
           ∧ lookup4 (wrap_pad (to4 [[1; 2]; [3; 4]]) (Z.of_nat 5)) 0 r c 0
             = Some v.
Proof.
  split; [lia|]. split; [lia|]. split; [reflexivity|].
  apply (wrap_pad_clamped 2 [[1; 2]; [3; 4]] 5); [lia|lia|reflexivity].
Defined.

Lemma sampling_any_interval_witness :
  (1 ≤ N_POINTS B32.reversed_params)%Z ∧ (0 ≤ N_TIMES B32.reversed_params)%Z
  ∧ N_STEPS B32.reversed_params ≠ 0%Z
  ∧ ∃ s0 ev,
      initialize B32.reversed_params = Some s0
      ∧ run B32.reversed_params = Some ev
      ∧ length ev = Z.to_nat (1 + 4 / Z.abs (-2))
      ∧ ∀ q : nat, (Z.of_nat q ≤ 4 / Z.abs (-2))%Z →
          ∃ s, steps B32.reversed_params (q * Z.to_nat (Z.abs (-2))) s0
               = Some s
               ∧ ev !! q = Some s.
Proof.
  split; [simpl; lia|]. split; [simpl; lia|]. split; [simpl; lia|].
  apply (sampling_any_interval B32.reversed_params); simpl; lia.
Defined.

Lemma run_record_rectangular_witness :
  run B32.tiny_params = Some (default [] (run B32.tiny_params))
  ∧ (∃ s0, initialize B32.tiny_params = Some s0
           ∧ default [] (run B32.tiny_params) !! 0 = Some s0)
  ∧ ∀ i e, default [] (run B32.tiny_params) !! i = Some e →
           well_shaped B32.tiny_params e.
Proof.
  assert (run B32.tiny_params = Some (default [] (run B32.tiny_params)))
    as Hrun by (vm_compute; reflexivity).
  split; [exact Hrun|].
  exact (run_record_rectangular B32.tiny_params _ Hrun).
Defined.

Lemma last_entry_witness :
  (1 ≤ N_POINTS B32.tiny_params)%Z ∧ (0 ≤ N_TIMES B32.tiny_params)%Z
  ∧ (1 ≤ N_STEPS B32.tiny_params)%Z
  ∧ ∃ s0 ev s,
      initialize B32.tiny_params = Some s0 ∧ run B32.tiny_params = Some ev
      ∧ steps B32.tiny_params (Z.to_nat (4 - 4 mod 2)) s0 = Some s
      ∧ np_index (a_list ev) (-1) = Some s.1
      ∧ np_index (b_list ev) (-1) = Some s.2.
Proof.
  split; [simpl; lia|]. split; [simpl; lia|]. split; [simpl; lia|].
  apply (last_entry B32.tiny_params); simpl; lia.
Defined.

Lemma seed_across_origin_dropped_witness :
  (0 ≤ N_POINTS B32.straddling_params)%Z
  ∧ (SEED_START B32.straddling_params < 0)%Z
  ∧ (0 ≤ SEED_START B32.straddling_params
         + SEED_SIZE B32.straddling_params)%Z
  ∧ (SEED_SIZE B32.straddling_params ≤ N_POINTS B32.straddling_params)%Z
  ∧ ∃ a b,
      initialize B32.straddling_params = Some (a, b)
      ∧ ∀ i j, i < 4 → j < 4 → lookup2 b i j = Some (cast (py_lit 0)).
Proof.
  split; [simpl; lia|]. split; [simpl; lia|]. split; [simpl; lia|].
  split; [simpl; lia|].
  apply (seed_across_origin_dropped B32.straddling_params); simpl; lia.
Defined.

Lemma uniform_state_witness :
  1 ≤ 4 ∧ Z.to_nat (N_POINTS B32.tiny_params) = 4
  ∧ sess_run B32.tiny_params (const_field 4 B32.one)
      (const_field 4 B32.zero)
    = Some (const_field 4
              (f_add (f_add B32.one
                        (stencil_const
                           (py_mul (DA B32.tiny_params)
                              (TIME_STEP B32.tiny_params)) B32.one))
                     (react_a_cell B32.tiny_params B32.one B32.zero)),
            const_field 4
              (f_add (f_add B32.zero
                        (stencil_const
                           (py_mul (DB B32.tiny_params)
                              (TIME_STEP B32.tiny_params)) B32.zero))
                     (react_b_cell B32.tiny_params B32.one B32.zero))).
Proof.
  split; [lia|]. split; [reflexivity|].
  apply (proj1 (uniform_state 4 ltac:(lia)) B32.arith B32.tiny_params).
  reflexivity.
Defined.

Lemma step_commutes_with_roll_witness :
  1 ≤ 4 ∧ has_shape2 4 4 B32.tiny_a = true ∧ has_shape2 4 4 B32.tiny_b = true
  ∧ ∃ new_a new_b,
      sess_run B32.tiny_params B32.tiny_a B32.tiny_b = Some (new_a, new_b)
      ∧ sess_run B32.tiny_params (roll 4 1 2 B32.tiny_a)
          (roll 4 1 2 B32.tiny_b)
        = Some (roll 4 1 2 new_a, roll 4 1 2 new_b).
Proof.
  split; [lia|]. split; [reflexivity|]. split; [reflexivity|].
  apply (step_commutes_with_roll B32.tiny_params B32.tiny_a B32.tiny_b 1 2);
    [simpl; lia|reflexivity|reflexivity].
Defined.

Lemma zero_b_stays_zero_witness :
  1 ≤ 4 ∧ has_shape2 4 4 B32.tiny_b = true
  ∧ forallb (forallb B32.is_finite) B32.tiny_b = true
  ∧ forallb (λ '(di, dj),
               B32.is_finite
                 (weight (py_mul (DB B32.tiny_params)
                            (TIME_STEP B32.tiny_params)) di dj))
      taps = true
  ∧ B32.is_finite (cast (TIME_STEP B32.tiny_params)) = true
  ∧ B32.is_finite
      (cast (py_add (k B32.tiny_params) (f B32.tiny_params))) = true
  ∧ ∃ new_a,
      sess_run B32.tiny_params B32.tiny_b (const_field 4 B32.zero)
      = Some (new_a, const_field 4 B32.zero).
Proof.
  split; [lia|]. split; [reflexivity|]. split; [reflexivity|].
  split; [vm_compute; reflexivity|]. split; [vm_compute; reflexivity|].
  split; [vm_compute; reflexivity|].
  apply (zero_b_stays_zero B32.tiny_params B32.tiny_b);
    [simpl; lia|reflexivity|reflexivity|vm_compute; reflexivity
    |vm_compute; reflexivity|vm_compute; reflexivity].
Defined.

Lemma normalize_zero_frame_witness :
  0 < length (concat [[S754_zero false; S754_zero true];
                      [S754_zero false; S754_zero false]])
  ∧ forallb (forallb Post.is_zero)
      [[S754_zero false; S754_zero true];
       [S754_zero false; S754_zero false]] = true
  ∧ Post.normalize [[S754_zero false; S754_zero true];
                    [S754_zero false; S754_zero false]]
    = Some (fmap (M := list) (λ _, S754_nan)
              <$> [[S754_zero false; S754_zero true];
                   [S754_zero false; S754_zero false]]).
Proof.
  split; [simpl; lia|]. split; [reflexivity|].
  apply normalize_zero_frame; [simpl; lia|reflexivity].
Defined.

Lemma animation_last_frame_witness :
  run B32.tiny_params = Some (default [] (run B32.tiny_params))
  ∧ (∀ i : nat, i < length (default [] (run B32.tiny_params)) →
       is_Some (Post.function_for_animation
                  (Post.b_list (default [] (run B32.tiny_params)))
                  (Z.of_nat i)))
  ∧ Z.of_nat (length (default [] (run B32.tiny_params)))
    ∈ Post.frames (Post.b_list (default [] (run B32.tiny_params)))
  ∧ Post.function_for_animation
      (Post.b_list (default [] (run B32.tiny_params)))
      (Z.of_nat (length (default [] (run B32.tiny_params))))
    = None.
Proof.
  assert (run B32.tiny_params = Some (default [] (run B32.tiny_params)))
    as Hrun by (vm_compute; reflexivity).
  split; [exact Hrun|].
  exact (animation_last_frame B32.tiny_params _ Hrun).
Defined.

End MoreInstances.
